(** * Currency swap form: price catalogue and conversion

    A shallow embedding of [src/problem2/CurrencySwapForm/src/Components/SwapForm.tsx]
    (the [CurrencySwap] React component): the duplicate filter
    [removeDuplicates], the price-processing loop of [fetchPrices] and the
    input handler [handleInputChange], together with the part of the
    JavaScript host semantics they rely on (IEEE-754 doubles, truthiness,
    [parseFloat], [Number.prototype.toString], [Number.prototype.toFixed]). *)

From Stdlib Require Import ZArith NArith String Ascii List Bool Lia Sorted.
From Corelib Require Import SpecFloat.
From stdpp Require Import base option list gmap strings.

(** ** The JavaScript host: numbers and their conversions *)
Module JS.

(** A JavaScript Number is an IEEE-754 binary64 value; [spec_float] is the
    Standard Library's specification of those (one NaN, signed zeros and
    infinities, finite values [(-1)^s * m * 2^e]).  The values of the language
    are the canonical ones ([valid_binary prec emax]); every operation below
    returns canonical values on canonical arguments. *)
Definition number : Type := spec_float.

Definition prec : Z := 53.
Definition emax : Z := 1024.

Definition NaN : number := S754_nan.
Definition zero : number := S754_zero false.

(** [x * y] and [x / y] on Numbers. *)
Definition mul : number -> number -> number := SFmul prec emax.
Definition div : number -> number -> number := SFdiv prec emax.

(** Same Number value (structural; not the [==] of the language, for which
    NaN differs from itself and the two zeros agree). *)
Definition number_eqb (x y : number) : bool :=
  match x, y with
  | S754_zero a, S754_zero b => Bool.eqb a b
  | S754_infinity a, S754_infinity b => Bool.eqb a b
  | S754_nan, S754_nan => true
  | S754_finite a m e, S754_finite b m' e' =>
      Bool.eqb a b && Pos.eqb m m' && Z.eqb e e'
  | _, _ => false
  end.

(** ToBoolean: a Number is truthy unless it is [+0], [-0] or [NaN]; a String
    is truthy unless it is empty; [undefined] is falsy. *)
Definition truthy_number (x : number) : bool :=
  match x with
  | S754_zero _ | S754_nan => false
  | S754_infinity _ | S754_finite _ _ _ => true
  end.

Definition truthy_string (s : string) : bool :=
  match s with
  | EmptyString => false
  | String _ _ => true
  end.

Definition truthy_opt {A} (truthy : A -> bool) (v : option A) : bool :=
  match v with
  | None => false
  | Some a => truthy a
  end.

(** ToNumber(undefined) is NaN. *)
Definition ToNumber_opt (v : option number) : number :=
  match v with
  | None => NaN
  | Some x => x
  end.

(** *** Decimal digits *)

Definition is_digit (c : ascii) : bool :=
  ((48 <=? N_of_ascii c) && (N_of_ascii c <=? 57))%N.

Definition digit_val (c : ascii) : N := (N_of_ascii c - 48)%N.

Definition digit_char (d : N) : ascii := ascii_of_N (48 + d).

Fixpoint digits_go (fuel : nat) (n : N) (acc : string) : string :=
  match fuel with
  | O => acc
  | S fuel' =>
      let acc' := String (digit_char (n mod 10)) acc in
      if (n / 10 =? 0)%N then acc' else digits_go fuel' (n / 10)%N acc'
  end.

(** The decimal representation of [n], no leading zeros (["0"] for 0).  A
    number has no more decimal digits than binary ones, hence the fuel. *)
Definition decimal_digits (n : N) : string :=
  digits_go (S (N.size_nat n)) n "".

Fixpoint digits_value_go (s : string) (acc : N) : N :=
  match s with
  | EmptyString => acc
  | String c r => digits_value_go r (10 * acc + digit_val c)%N
  end.

Definition digits_value (s : string) : N := digits_value_go s 0%N.

(** Longest prefix of decimal digits, and what follows it. *)
Fixpoint span_digits (s : string) : string * string :=
  match s with
  | EmptyString => ("", "")
  | String c r =>
      if is_digit c then
        let '(d, rest) := span_digits r in (String c d, rest)
      else ("", s)
  end.

Fixpoint zeros (n : nat) : string :=
  match n with
  | O => ""
  | S n' => String "0" (zeros n')
  end.

Fixpoint string_take (n : nat) (s : string) : string :=
  match n, s with
  | S n', String c r => String c (string_take n' r)
  | _, _ => ""
  end.

Fixpoint string_drop (n : nat) (s : string) : string :=
  match n, s with
  | S n', String _ r => string_drop n' r
  | _, _ => s
  end.

(** *** From decimal text to the nearest Number *)

(** The Number nearest to [(-1)^sign * m * 10^e] (ties to even). *)
Definition of_decimal (sign : bool) (m : N) (e : Z) : number :=
  match m with
  | N0 => S754_zero sign
  | Npos p =>
      if (0 <=? e)%Z then
        binary_normalize prec emax
          (cond_Zopp sign (Zpos p * 10 ^ e)%Z) 0 false
      else
        SFdiv prec emax (S754_finite sign p 0)
          (S754_finite false (Z.to_pos (10 ^ (- e))) 0)
  end.

(** StrWhiteSpaceChar, for the characters a string has here (8 bits, the code
    points below U+0100): TAB, LF, VT, FF, CR, SP and NBSP. *)
Definition is_whitespace (c : ascii) : bool :=
  let n := N_of_ascii c in
  ((9 <=? n) && (n <=? 13) || (n =? 32) || (n =? 160))%N.

Fixpoint trim_start (s : string) : string :=
  match s with
  | EmptyString => ""
  | String c r => if is_whitespace c then trim_start r else s
  end.

Definition split_sign (s : string) : bool * string :=
  match s with
  | String "+" r => (false, r)
  | String "-" r => (true, r)
  | _ => (false, s)
  end.

(** ExponentPart, when present and well formed; otherwise 0 (the characters
    are then not part of the literal). *)
Definition exponent_part (s : string) : Z :=
  match s with
  | String c r =>
      if (Ascii.eqb c "e" || Ascii.eqb c "E")%bool then
        let '(neg, r1) := split_sign r in
        let '(ed, _) := span_digits r1 in
        match ed with
        | EmptyString => 0%Z
        | _ => cond_Zopp neg (Z.of_N (digits_value ed))
        end
      else 0%Z
  | EmptyString => 0%Z
  end.

(** The value of the longest prefix of [s] that is a StrDecimalLiteral, if
    there is one. *)
Definition StrDecimalLiteral (s : string) : option number :=
  let '(sign, s1) := split_sign s in
  if String.prefix "Infinity" s1 then Some (S754_infinity sign)
  else
    let '(ip, s2) := span_digits s1 in
    let '(fp, s3) :=
      match s2 with
      | String "." r => span_digits r
      | _ => ("", s2)
      end in
    match ip +:+ fp with
    | EmptyString => None
    | ds =>
        Some (of_decimal sign (digits_value ds)
                (exponent_part s3 - Z.of_nat (String.length fp)))
    end.

(** [parseFloat(string)]: leading white space is skipped, the longest numeric
    prefix is read, anything after it is ignored; NaN when there is no such
    prefix. *)
Definition parseFloat (s : string) : number :=
  match StrDecimalLiteral (trim_start s) with
  | Some x => x
  | None => NaN
  end.

(** *** From a Number to decimal text *)

(** The exact value [m * 2^e] of a finite Number as a fraction [(p, q)]. *)
Definition exact_ratio (m : positive) (e : Z) : Z * Z :=
  if (0 <=? e)%Z then (Zpos m * 2 ^ e, 1)%Z else (Zpos m, 2 ^ (- e))%Z.

Fixpoint neg_exponent (fuel : nat) (p q n : Z) : Z :=
  match fuel with
  | O => n
  | S fuel' =>
      if (q <=? p * 10)%Z then n else neg_exponent fuel' (p * 10)%Z q (n - 1)%Z
  end.

(** The integer [n] with [10^(n-1) <= p/q < 10^n], for [0 < p/q]. *)
Definition decimal_exponent (p q : Z) : Z :=
  if (q <=? p)%Z then
    Z.of_nat (String.length (decimal_digits (Z.to_N (p / q))))
  else neg_exponent (S (Z.to_nat (Z.log2 q))) p q 0.

(** [p/q / 10^(n-k)] as a fraction. *)
Definition scaled (p q n k : Z) : Z * Z :=
  if (n <=? k)%Z then (p * 10 ^ (k - n), q)%Z else (p, q * 10 ^ (n - k))%Z.

(** Number::toString, step 5: integers [n], [k] and [s] such that [k >= 1],
    [10^(k-1) <= s < 10^k], the Number nearest to [s * 10^(n-k)] is [x], and
    [k] is as small as possible; among several [s], the one nearest to [x],
    the even one on a tie.  [x] is the canonical Number of value [p/q > 0],
    [n] its decimal exponent; only the two integers around [x / 10^(n-k)]
    can qualify.  Seventeen digits always identify a double, so the fuel
    (started at 20) does not run out on a Number. *)
Fixpoint shortest (fuel : nat) (x : number) (p q n k : Z) : Z * Z * Z :=
  let '(P, Q) := scaled p q n k in
  let lo := (P / Q)%Z in
  let r := (P mod Q)%Z in
  let hi := (lo + 1)%Z in
  let ok s := number_eqb (of_decimal false (Z.to_N s) (n - k)) x in
  let pick :=
    match ok lo, ok hi with
    | true, true =>
        Some (if (2 * r <? Q)%Z then lo
              else if (Q <? 2 * r)%Z then hi
              else if Z.even lo then lo else hi)
    | true, false => Some lo
    | false, true => Some hi
    | false, false => None
    end in
  match pick, fuel with
  | Some s, _ =>
      if (s =? 10 ^ k)%Z then (10 ^ (k - 1), n + 1, k)%Z else (s, n, k)
  | None, S fuel' => shortest fuel' x p q n (k + 1)
  | None, O => (lo, n, k)
  end.

(** Number::toString, steps 6 to 10: the text for digits [s] (there are [k]
    of them) and decimal exponent [n]. *)
Definition format_digits (d : string) (n : Z) : string :=
  let k := Z.of_nat (String.length d) in
  if ((k <=? n) && (n <=? 21))%Z then d +:+ zeros (Z.to_nat (n - k))
  else if ((0 <? n) && (n <=? 21))%Z then
    string_take (Z.to_nat n) d +:+ "." +:+ string_drop (Z.to_nat n) d
  else if ((-6 <? n) && (n <=? 0))%Z then
    "0." +:+ zeros (Z.to_nat (- n)) +:+ d
  else
    let e := (n - 1)%Z in
    let es := (if (e <? 0)%Z then "-" else "+") +:+ decimal_digits (Z.abs_N e) in
    if (k =? 1)%Z then d +:+ "e" +:+ es
    else string_take 1 d +:+ "." +:+ string_drop 1 d +:+ "e" +:+ es.

(** Number::toString of the positive finite value [m * 2^e]. *)
Definition toString_pos (m : positive) (e : Z) : string :=
  let x := binary_round prec emax false m e in
  let '(p, q) := exact_ratio m e in
  let n := decimal_exponent p q in
  let '(s, n', _) := shortest 20 x p q n 1 in
  format_digits (decimal_digits (Z.to_N s)) n'.

(** [String(x)] for a Number (Number::toString, radix 10). *)
Definition Number_toString (x : number) : string :=
  match x with
  | S754_nan => "NaN"
  | S754_zero _ => "0"
  | S754_infinity s => if s then "-Infinity" else "Infinity"
  | S754_finite s m e => (if s then "-" else "") +:+ toString_pos m e
  end.

(** [parseFloat] applied to a Number converts it to a String first. *)
Definition parseFloat_number (x : number) : number :=
  parseFloat (Number_toString x).

(** [String(v)] in a template literal, for a value that is a String or
    [undefined]. *)
Definition ToString_opt (v : option string) : string :=
  match v with
  | None => "undefined"
  | Some s => s
  end.

(** Number.prototype.toFixed, step 10: the digits of the integer [n] with a
    point before the last [fd] of them, zero-padded on the left to at least
    [fd + 1] digits. *)
Definition fixed_digits (n : N) (fd : nat) : string :=
  let m := decimal_digits n in
  match fd with
  | O => m
  | S _ =>
      let k := String.length m in
      let m' := if (k <=? fd)%nat then zeros (S fd - k) +:+ m else m in
      let k' := String.length m' in
      string_take (k' - fd) m' +:+ "." +:+ string_drop (k' - fd) m'
  end.

(** [x.toFixed(fd)] for [0 <= fd <= 100] (a larger [fd] raises RangeError; the
    component only calls it with 6).  A value that is not finite, or of
    magnitude [10^21] and more, is printed by [Number_toString]; otherwise the
    integer nearest to [|x| * 10^fd] is taken, the larger one on a tie. *)
Definition toFixed (x : number) (fd : nat) : string :=
  match x with
  | S754_nan | S754_infinity _ => Number_toString x
  | S754_zero _ => fixed_digits 0 fd
  | S754_finite s m e =>
      let sgn := if s then "-" else "" in
      let '(p, q) := exact_ratio m e in
      if (10 ^ 21 * q <=? p)%Z then sgn +:+ toString_pos m e
      else
        sgn +:+ fixed_digits
                 (Z.to_N ((2 * p * 10 ^ Z.of_nat fd + q) / (2 * q))) fd
  end.

(** *** Comparison, subtraction and sorting *)

(** [x > y] and [x - y] on Numbers. *)
Definition gt (x y : number) : bool := SFltb y x.
Definition sub : number -> number -> number := SFsub prec emax.

(** [Array.prototype.sort] with a comparison function.  The sort is stable,
    and for a consistent comparison function its result is determined: [x]
    stands after [y] when [comparefn(x, y) > 0], and elements that compare
    equal (0 or NaN) keep their original order.  That result is computed by
    insertion, from the right end of the array. *)
Fixpoint sort_insert {A} (comparefn : A -> A -> number) (x : A)
  (sorted : list A) : list A :=
  match sorted with
  | [] => [x]
  | y :: rest =>
      if gt (comparefn x y) zero then y :: sort_insert comparefn x rest
      else x :: sorted
  end.

Definition Array_sort {A} (comparefn : A -> A -> number) (l : list A)
  : list A :=
  foldr (sort_insert comparefn) [] l.

(** *** Values and plain objects *)

(** What reading a property gives on a plain object whose own properties hold
    Numbers: [undefined], a Number, or an object inherited from
    [Object.prototype] (a built-in function, or for [__proto__] the prototype
    itself), named here by the property it was read under. *)
Inductive value : Type :=
  | VUndefined
  | VNumber (x : number)
  | VObject (name : string).

(** ToBoolean: every object is truthy. *)
Definition truthy (v : value) : bool :=
  match v with
  | VUndefined => false
  | VNumber x => truthy_number x
  | VObject _ => true
  end.

(** ToNumber: [undefined] gives NaN; an object converts through its text (the
    source text of a built-in function, [[object Object]] for the
    prototype), which is no numeric literal, so it gives NaN too.  The
    arithmetic and relational operators apply it to their operands, hence the
    coercion. *)
Definition ToNumber (v : value) : number :=
  match v with
  | VUndefined => NaN
  | VNumber x => x
  | VObject _ => NaN
  end.

Coercion ToNumber : value >-> number.

(** The properties of [Object.prototype], which every plain object
    inherits. *)
Definition Object_prototype_names : list string :=
  [ "constructor"; "hasOwnProperty"; "isPrototypeOf"; "propertyIsEnumerable";
    "toLocaleString"; "toString"; "valueOf"; "__proto__";
    "__defineGetter__"; "__defineSetter__"; "__lookupGetter__";
    "__lookupSetter__" ].

Definition inherited (k : string) : bool :=
  existsb (String.eqb k) Object_prototype_names.

(** [o[k]] on a plain object with the own properties [o]: the own property
    when there is one, the inherited one otherwise. *)
Definition Object_read (o : gmap string number) (k : string) : value :=
  match o !! k with
  | Some x => VNumber x
  | None => if inherited k then VObject k else VUndefined
  end.

(** [o[k] = x] on a plain object: the property becomes an own one, except
    that an assignment to [__proto__] on an object that has no own property
    of that name runs the inherited setter, which ignores a Number. *)
Definition Object_assign (o : gmap string number) (k : string) (x : number)
  : gmap string number :=
  match o !! k with
  | Some _ => <[k := x]> o
  | None => if String.eqb k "__proto__" then o else <[k := x]> o
  end.

End JS.

(** ** The component: [CurrencySwap] *)
Module SwapForm.
Import JS.

(** An object literal: its own properties in insertion order. *)
Definition Object_keys {V} (o : list (string * V)) : list string := map fst o.

Definition Object_get {V} (o : list (string * V)) (k : string) : option V :=
  snd <$> find (fun p => String.eqb (fst p) k) o.

Definition Array_includes (l : list string) (x : string) : bool :=
  existsb (String.eqb x) l.

(** Tickers whose icon file name differs in case from the display ticker. *)
Definition mapIncorrectObj : list (string * string) :=
  [ ("STEVMOS", "stEVMos");
    ("RATOM", "rATOM");
    ("STOSMO", "stOSMO");
    ("STATOM", "stATOM");
    ("STLUNA", "stLUNA") ].

(** [type CurrenciesModel]: every field but [currency] is optional. *)
Record CurrenciesModel : Type := {
  currency : string;
  date : option string;
  price : option number;
  iconUrl : option string
}.

(** *** [removeDuplicates] *)

(** A JavaScript [Map] with String keys: the entries in insertion order.
    [set] on a key that is present replaces the value where it stands. *)
Definition Map_has {V} (m : list (string * V)) (k : string) : bool :=
  existsb (fun p => String.eqb (fst p) k) m.

Fixpoint Map_set {V} (m : list (string * V)) (k : string) (v : V)
  : list (string * V) :=
  match m with
  | [] => [(k, v)]
  | (k', v') :: m' =>
      if String.eqb k' k then (k, v) :: m' else (k', v') :: Map_set m' k v
  end.

Definition Map_values {V} (m : list (string * V)) : list V := map snd m.

(** The key [`${item.currency}-${item.date}`]. *)
Definition item_key (item : CurrenciesModel) : string :=
  currency item +:+ "-" +:+ ToString_opt (date item).

Definition removeDuplicates_step
  (uniqueMap : list (string * CurrenciesModel)) (item : CurrenciesModel)
  : list (string * CurrenciesModel) :=
  let key := item_key item in
  if negb (Map_has uniqueMap key) then Map_set uniqueMap key item
  else uniqueMap.

Definition removeDuplicates (data : list CurrenciesModel)
  : list CurrenciesModel :=
  let uniqueMap := fold_left removeDuplicates_step data [] in
  Map_values uniqueMap.

(** *** [fetchPrices]: from the fetched list to [prices] and [currencies] *)

Definition icon_base : string :=
  "https://raw.githubusercontent.com/Switcheo/token-icons/main/tokens/".

(** [iconName] for a currency: the entry of [mapIncorrectObj] when the
    currency is one of its keys, the currency itself otherwise. *)
Definition iconName (c : string) : option string :=
  if Array_includes (Object_keys mapIncorrectObj) c
  then Object_get mapIncorrectObj c
  else Some c.

Definition icon_url (c : string) : string :=
  icon_base +:+ ToString_opt (iconName c) +:+ ".svg".

(** The body of [newMockData.forEach]: [priceMap] is a plain object used as a
    map from currency to rate (its own properties are kept here),
    [availableCurrencies] an array that is pushed to. *)
Definition fetchPrices_step
  (st : gmap string number * list CurrenciesModel) (item : CurrenciesModel)
  : gmap string number * list CurrenciesModel :=
  let '(priceMap, availableCurrencies) := st in
  match price item with
  | Some p =>
      if truthy_number p then
        (Object_assign priceMap (currency item) (parseFloat_number p),
         availableCurrencies ++
           [ {| currency := currency item; date := None; price := None;
                iconUrl := Some (icon_url (currency item)) |} ])
      else st
  | None => st
  end.

(** What [fetchPrices] passes to [setPrices] and [setCurrencies] for the
    parsed response [data] (the specification calls this [normalize]). *)
Definition fetchPrices (data : list CurrenciesModel)
  : gmap string number * list CurrenciesModel :=
  let newMockData := removeDuplicates data in
  fold_left fetchPrices_step newMockData (∅, []).

(** *** [handleInputChange] *)

(** The form state is an object whose properties hold a String or
    [undefined]; reading a property that is missing gives [undefined]. *)
Definition prop (o : gmap string (option string)) (k : string) : option string :=
  default None (o !! k).

Definition initial_formData : gmap string (option string) :=
  <["fromCurrency" := None]> (<["toCurrency" := None]>
    (<["fromAmount" := Some ""]> (<["toAmount" := Some ""]> ∅))).

(** The argument of a [setFormData] call: a new state, or a function of the
    state the update is applied to. *)
Inductive SetStateAction : Type :=
  | SetValue (v : gmap string (option string))
  | SetUpdater (f : gmap string (option string) -> gmap string (option string)).

Definition apply_action (st : gmap string (option string)) (a : SetStateAction)
  : gmap string (option string) :=
  match a with
  | SetValue v => v
  | SetUpdater f => f st
  end.

(** The guarded block of the handler: the new [toAmount] when the form is
    complete enough to convert, [None] when no update is made.  [prices] is a
    plain object, so [prices[name]] also answers the names it inherits. *)
Definition conversion (prices : gmap string number)
  (fromCurrency toCurrency fromAmount : option string) : option string :=
  match fromCurrency, toCurrency with
  | Some fromCurrency, Some toCurrency =>
      if truthy_string fromCurrency && truthy_string toCurrency then
        let fromRate :=
          let read := Object_read prices fromCurrency in
          if truthy read then read else VNumber zero in
        let toRate := Object_read prices toCurrency in
        let amountInUSD := mul (parseFloat (ToString_opt fromAmount)) fromRate in
        let result := toFixed (div amountInUSD toRate) 6 in
        if truthy fromRate && truthy toRate
           && truthy_opt truthy_string fromAmount
        then Some result
        else None
      else None
  | _, _ => None
  end.

(** The [setFormData] calls made by [handleInputChange field value], in
    order, for the rendered state [formData] and the rate table [prices]. *)
Definition handleInputChange (prices : gmap string number)
  (formData : gmap string (option string))
  (field : string) (value : option string) : list SetStateAction :=
  let newFormData := <[field := value]> formData in
  SetValue newFormData ::
  (if String.eqb field "fromAmount" || String.eqb field "fromCurrency"
      || String.eqb field "toCurrency"
   then
     match conversion prices (prop newFormData "fromCurrency")
             (prop newFormData "toCurrency") (prop newFormData "fromAmount") with
     | Some result =>
         [SetUpdater (fun prev => <["toAmount" := Some result]> prev)]
     | None => []
     end
   else []).

(** The state after the handler has run: the queued updates are applied in
    order to the state the handler was rendered with. *)
Definition after_input (prices : gmap string number)
  (formData : gmap string (option string))
  (field : string) (value : option string) : gmap string (option string) :=
  fold_left apply_action (handleInputChange prices formData field value) formData.

(** *** The conversion as a function of a request *)

(** What the three inputs of the form hold once an edit is applied. *)
Record ConversionRequest : Type := {
  fromCurrency : option string;
  toCurrency : option string;
  fromAmount : option string
}.

(** The converted amount shown for a request: the new [toAmount] when the
    handler updates it, the previous one otherwise. *)
Definition convert (request : ConversionRequest) (rates : gmap string number)
  (previousResult : option string) : option string :=
  match conversion rates (fromCurrency request) (toCurrency request)
          (fromAmount request) with
  | Some result => Some result
  | None => previousResult
  end.

(** *** The effect of [fetchPrices] on the component *)

(** The state hooks of the component. *)
Record ComponentState : Type := {
  loading : bool;
  prices : gmap string number;
  currencies : list CurrenciesModel;
  formData : gmap string (option string)
}.

Definition initial_state : ComponentState :=
  {| loading := true; prices := ∅; currencies := [];
     formData := initial_formData |}.

(** What the two awaits of [fetchPrices] can produce: [fetch] rejects, or it
    resolves to a response with its [ok] flag and a body that
    [response.json()] parses to a list ([None] when that call rejects). *)
Inductive FetchOutcome : Type :=
  | FetchRejected
  | FetchResponse (ok : bool) (body : option (list CurrenciesModel)).

(** The [try] block sets [prices], [currencies] and [loading] when it runs to
    its end; a rejected await or the [throw] on [!response.ok] lands in the
    empty [catch]; [finally] clears [loading] in every case. *)
Definition fetchPrices_effect (outcome : FetchOutcome) (st : ComponentState)
  : ComponentState :=
  let st' :=
    match outcome with
    | FetchResponse true (Some data) =>
        {| loading := false; prices := (fetchPrices data).1;
           currencies := (fetchPrices data).2; formData := formData st |}
    | _ => st
    end in
  {| loading := false; prices := prices st'; currencies := currencies st';
     formData := formData st' |}.

End SwapForm.

(** ** Reference notions used by the statements *)
Module Spec.
Import JS SwapForm.

(** Number literals for integers. *)
Definition num (z : Z) : number := binary_normalize prec emax z 0 false.

(** The rate an observation contributes: [parseFloat(item.price)] when the
    price is present and truthy. *)
Definition item_rate (item : CurrenciesModel) : option number :=
  match price item with
  | Some p => if truthy_number p then Some (parseFloat_number p) else None
  | None => None
  end.

(** An observation is priced when it contributes a rate. *)
Definition priced (item : CurrenciesModel) : Prop := is_Some (item_rate item).

#[global] Instance priced_dec item : Decision (priced item) :=
  decide (is_Some (item_rate item)).

(** The loop of [fetchPrices] over an already deduplicated list. *)
Definition process (newMockData : list CurrenciesModel)
  : gmap string number * list CurrenciesModel :=
  fold_left fetchPrices_step newMockData (∅, []).

(** The display entry pushed for an observation. *)
Definition meta_of (item : CurrenciesModel) : CurrenciesModel :=
  {| currency := currency item; date := None; price := None;
     iconUrl := Some (icon_url (currency item)) |}.

(** The ticker an icon is looked up under: the override when there is one. *)
Definition resolved_ticker (c : string) : string :=
  match Object_get mapIncorrectObj c with
  | Some t => t
  | None => c
  end.

(** An observation of the price feed: currency, date and an integer price. *)
Definition observation (c d : string) (p : Z) : CurrenciesModel :=
  {| currency := c; date := Some d; price := Some (num p); iconUrl := None |}.

(** The conversion policy in the specification's words: [fromRate] is
    [rates[fromCurrency]], 0 when the currency is absent or not in the table;
    [toRate] is [rates[toCurrency]] with no default; the candidate is
    [parseFloat(fromAmount) * fromRate / toRate] fixed to 6 digits; the result
    is replaced when [fromRate], [toRate] and the raw [fromAmount] are all
    truthy. *)
Definition fromRate (rates : gmap string number) (request : ConversionRequest)
  : number :=
  match fromCurrency request with
  | Some c => default zero (rates !! c)
  | None => zero
  end.

Definition toRate (rates : gmap string number) (request : ConversionRequest)
  : option number :=
  match toCurrency request with
  | Some c => rates !! c
  | None => None
  end.

Definition candidate (rates : gmap string number) (request : ConversionRequest)
  : string :=
  toFixed
    (div (mul (parseFloat (ToString_opt (fromAmount request)))
              (fromRate rates request))
         (ToNumber_opt (toRate rates request))) 6.

Definition update_policy (rates : gmap string number)
  (request : ConversionRequest) : bool :=
  truthy_number (fromRate rates request)
  && truthy_opt truthy_number (toRate rates request)
  && truthy_opt truthy_string (fromAmount request).

(** A currency field that holds a non-empty String. *)
Definition chosen (c : option string) : bool := truthy_opt truthy_string c.

(** A request with both currencies chosen and an amount typed. *)
Definition request_of (from to amount : string) : ConversionRequest :=
  {| fromCurrency := Some from; toCurrency := Some to;
     fromAmount := Some amount |}.

(** The rate table [{A: 2, B: 4}]. *)
Definition rates_AB : gmap string number :=
  <["A" := num 2]> (<["B" := num 4]> ∅).

(** Text made of decimal digits only. *)
Fixpoint all_digits (s : string) : bool :=
  match s with
  | EmptyString => true
  | String c r => is_digit c && all_digits r
  end.

(** Fixed-point notation with [fd] digits after the point: an optional minus
    sign, at least one digit, a point, exactly [fd] digits. *)
Definition fixed_point_text (fd : nat) (s : string) : Prop :=
  ∃ sgn a b,
    s = sgn +:+ a +:+ "." +:+ b ∧ (sgn = "" ∨ sgn = "-") ∧
    a ≠ "" ∧ all_digits a = true ∧ all_digits b = true ∧ String.length b = fd.

(** The Numbers [toFixed] prints in fixed-point notation: the finite ones of
    magnitude below [10^21]. *)
Definition fixed_range (x : number) : bool :=
  match x with
  | S754_nan | S754_infinity _ => false
  | S754_zero _ => true
  | S754_finite _ m e =>
      let '(p, q) := exact_ratio m e in negb (10 ^ 21 * q <=? p)%Z
  end.

(** The map built by the loop of [removeDuplicates], before its values are
    read back. *)
Definition uniqueMap_of (data : list CurrenciesModel)
  : list (string * CurrenciesModel) :=
  fold_left removeDuplicates_step data [].

(** A run of edits: the handler is called for each (field, value) in turn,
    every call on the state the previous one left. *)
Definition edits (prices : gmap string number)
  (formData : gmap string (option string))
  (calls : list (string * option string)) : gmap string (option string) :=
  fold_left (fun st call => after_input prices st call.1 call.2) calls formData.

(** Text that cannot continue a run of digits as a number: empty, or starting
    with a character that is no digit, no point and no exponent mark. *)
Definition plain_tail (t : string) : Prop :=
  match t with
  | EmptyString => True
  | String c _ =>
      is_digit c = false ∧ c ≠ "."%char ∧ c ≠ "e"%char ∧ c ≠ "E"%char
  end.

(** Text without the separator of the key. *)
Fixpoint dash_free (s : string) : bool :=
  match s with
  | EmptyString => true
  | String c r => negb (Ascii.eqb c "-") && dash_free r
  end.

(** The display entry of an observation with its icon URL written out. *)
Definition entry_of (item : CurrenciesModel) : CurrenciesModel :=
  {| currency := currency item; date := None; price := None;
     iconUrl :=
       Some (icon_base +:+ resolved_ticker (currency item) +:+ ".svg") |}.

(** A currency field names a member the rate table inherits from
    [Object.prototype] and does not hold itself. *)
Definition inherited_read (rates : gmap string number) (c : option string)
  : bool :=
  match c with
  | Some c =>
      match rates !! c with
      | Some _ => false
      | None => inherited c
      end
  | None => false
  end.

(** What [rates[c]] is worth in a condition: an own rate counts when it is
    truthy, an inherited member always, a name that is neither never. *)
Definition rate_truthy (rates : gmap string number) (c : option string)
  : bool :=
  match c with
  | Some c =>
      match rates !! c with
      | Some r => truthy_number r
      | None => inherited c
      end
  | None => false
  end.

(** One of the three inputs of the form. *)
Definition input_field (field : string) : bool :=
  String.eqb field "fromAmount" || String.eqb field "fromCurrency"
  || String.eqb field "toCurrency".

End Spec.

(** ** The wallet page: the refactored [WalletPage] of the review *)
Module WalletPage.
Import JS.

(** [interface WalletBalance]; [blockchain] is one of five names by its type,
    any String at run time (hence the fallback of [getPriority]). *)
Record WalletBalance : Type := {
  currency : string;
  amount : number;
  blockchain : string
}.

(** [interface FormattedWalletBalance]: the fields of the balance and the
    formatted amount. *)
Record FormattedWalletBalance : Type := {
  balance : WalletBalance;
  formatted : string
}.

Definition BLOCKCHAIN_PRIORITIES : list (string * number) :=
  [ ("Osmosis", Spec.num 100);
    ("Ethereum", Spec.num 50);
    ("Arbitrum", Spec.num 30);
    ("Zilliqa", Spec.num 20);
    ("Neo", Spec.num 20) ].

(** [BLOCKCHAIN_PRIORITIES[blockchain] ?? -99]: the table is a plain object,
    so a name it inherits reads as an object, to which [??] does not apply;
    only a name that is neither its own nor inherited gives -99. *)
Definition getPriority (blockchain : string) : value :=
  match SwapForm.Object_get BLOCKCHAIN_PRIORITIES blockchain with
  | Some priority => VNumber priority
  | None =>
      if inherited blockchain then VObject blockchain
      else VNumber (Spec.num (-99))
  end.

(** [balance.amount.toFixed()]: no fraction digits. *)
Definition formatBalance (balance : WalletBalance) : FormattedWalletBalance :=
  {| balance := balance; formatted := toFixed (amount balance) 0 |}.

(** The predicate of [filter] and the comparison function of [sort]. *)
Definition shown (balance : WalletBalance) : bool :=
  gt (getPriority (blockchain balance)) (Spec.num (-99))
  && gt (amount balance) zero.

Definition by_priority (lhs rhs : WalletBalance) : number :=
  let leftPriority := getPriority (blockchain lhs) in
  let rightPriority := getPriority (blockchain rhs) in
  sub rightPriority leftPriority.

(** The memoized value: filter, sort, format. *)
Definition sortedAndFormattedBalances (balances : list WalletBalance)
  : list FormattedWalletBalance :=
  formatBalance <$>
    Array_sort by_priority (List.filter shown balances).

(** The priorities as integers, for the statements. *)
Definition priority_rank (blockchain : string) : Z :=
  match SwapForm.Object_get
          [ ("Osmosis", 100%Z); ("Ethereum", 50%Z); ("Arbitrum", 30%Z);
            ("Zilliqa", 20%Z); ("Neo", 20%Z) ] blockchain with
  | Some priority => priority
  | None => (-99)%Z
  end.

(** Two Numbers are the same value or not. *)
#[global] Instance number_eq_dec : EqDecision number.
Proof. solve_decision. Defined.

#[global] Instance value_eq_dec : EqDecision value.
Proof. solve_decision. Defined.

End WalletPage.

(** ** The three sums of [problem1.js] *)
Module Problem1.
Import JS.

(** [x + y] and [x <= y] on Numbers. *)
Definition add : number -> number -> number := SFadd prec emax.
Definition le (x y : number) : bool := SFleb x y.

(** [sum_to_n_a]: the state of the [for] loop is [(i, sum)]; every round of
    the loop costs one unit of fuel, and [None] is a loop that has not ended
    within the fuel. *)
Fixpoint sum_to_n_a_loop (fuel : nat) (n i sum : number) : option number :=
  match fuel with
  | O => None
  | S fuel' =>
      if le i n
      then sum_to_n_a_loop fuel' n (add i (Spec.num 1)) (add sum i)
      else Some sum
  end.

Definition sum_to_n_a (fuel : nat) (n : number) : option number :=
  sum_to_n_a_loop fuel n (Spec.num 1) (Spec.num 0).

(** [sum_to_n_b]: the closed formula. *)
Definition sum_to_n_b (n : number) : number :=
  div (mul n (add n (Spec.num 1))) (Spec.num 2).

(** ToLength: NaN and everything up to 0 give 0; otherwise the integer part,
    capped at [2^53 - 1]. *)
Definition ToLength (x : number) : Z :=
  match x with
  | S754_nan | S754_zero _ => 0
  | S754_infinity s => if s then 0 else 2 ^ 53 - 1
  | S754_finite s m e =>
      if s then 0
      else
        Z.min (if (0 <=? e)%Z then Zpos m * 2 ^ e else Zpos m / 2 ^ (- e))
              (2 ^ 53 - 1)
  end%Z.

(** [Array.from({ length: n }, mapfn)]: the object is array-like and has no
    elements, so [mapfn] receives [undefined] and the index [k] for
    [k = 0 .. len - 1]; a length above [2^32 - 1] raises RangeError
    ([None]). *)
Definition Array_from_length (n : number) (mapfn : number -> number)
  : option (list number) :=
  let len := ToLength n in
  if (2 ^ 32 - 1 <? len)%Z then None
  else Some ((fun k => mapfn (Spec.num (Z.of_nat k)))
               <$> seq 0 (Z.to_nat len)).

(** [sum_to_n_c]: the array [1 .. n], reduced with [+] from 0. *)
Definition sum_to_n_c (n : number) : option number :=
  match Array_from_length n (fun i => add i (Spec.num 1)) with
  | Some array => Some (fold_left (fun sum num => add sum num) array (Spec.num 0))
  | None => None
  end.

End Problem1.

(** ** Properties of [removeDuplicates] *)
Section RemoveDuplicates.
Import JS SwapForm Spec.

Implicit Types (data : list CurrenciesModel) (item : CurrenciesModel).
Implicit Types (uniqueMap : list (string * CurrenciesModel)).

Lemma Map_has_true {V} (m : list (string * V)) k :
  Map_has m k = true <-> k ∈ m.*1.
Proof.
  unfold Map_has. rewrite existsb_exists, list_elem_of_fmap.
  split.
  - intros [p [Hin Heq]]. apply String.eqb_eq in Heq.
    exists p. split; [done | by apply list_elem_of_In].
  - intros [p [-> Hin]]. exists p. split; [by apply list_elem_of_In |].
    apply String.eqb_refl.
Qed.

Lemma Map_has_false {V} (m : list (string * V)) k :
  Map_has m k = false <-> k ∉ m.*1.
Proof.
  rewrite <- Map_has_true. destruct (Map_has m k); split; congruence.
Qed.

(** [set] on a key that is absent appends the entry. *)
Lemma Map_set_fresh {V} (m : list (string * V)) k v :
  Map_has m k = false -> Map_set m k v = m ++ [(k, v)].
Proof.
  induction m as [|[k' v'] m IH]; simpl; [done |].
  intros H. apply orb_false_iff in H as [Hk Hm].
  rewrite Hk. by rewrite IH.
Qed.

Lemma removeDuplicates_step_eq uniqueMap item :
  removeDuplicates_step uniqueMap item =
    if Map_has uniqueMap (item_key item) then uniqueMap
    else uniqueMap ++ [(item_key item, item)].
Proof.
  unfold removeDuplicates_step.
  destruct (Map_has uniqueMap (item_key item)) eqn:H; simpl; [done |].
  by apply Map_set_fresh.
Qed.

Lemma uniqueMap_of_snoc data item :
  uniqueMap_of (data ++ [item]) =
    removeDuplicates_step (uniqueMap_of data) item.
Proof. unfold uniqueMap_of. by rewrite fold_left_app. Qed.

(** Every entry is stored under the key of its value. *)
Lemma uniqueMap_of_keyed data :
  uniqueMap_of data = (fun v => (item_key v, v)) <$> removeDuplicates data.
Proof.
  unfold removeDuplicates, Map_values. fold (uniqueMap_of data).
  induction data as [|item data IH] using rev_ind; [done |].
  rewrite uniqueMap_of_snoc, removeDuplicates_step_eq.
  destruct (Map_has _ _); [done |].
  rewrite map_app, fmap_app. simpl. by rewrite <- IH.
Qed.

(** The keys of the map are the keys of the observations read so far. *)
Lemma uniqueMap_of_has data k :
  Map_has (uniqueMap_of data) k = true <-> ∃ y, y ∈ data ∧ item_key y = k.
Proof.
  revert k. induction data as [|item data IH] using rev_ind; intros k.
  - simpl. split; [done |]. intros [y [Hy _]]. by apply elem_of_nil in Hy.
  - rewrite uniqueMap_of_snoc, removeDuplicates_step_eq.
    destruct (Map_has (uniqueMap_of data) (item_key item)) eqn:Hhas.
    + rewrite IH. split.
      * intros [y [Hy Hk]]. exists y. split; [| done].
        apply elem_of_app. by left.
      * intros [y [Hy Hk]]. apply elem_of_app in Hy as [Hy | Hy].
        -- by exists y.
        -- apply list_elem_of_singleton in Hy. subst y. rewrite <- Hk.
           by apply IH.

    + rewrite Map_has_true, fmap_app, elem_of_app, <- Map_has_true, IH.
      simpl. rewrite list_elem_of_singleton. split.
      * intros [[y [Hy Hk]] | ->].
        -- exists y. split; [| done]. apply elem_of_app. by left.
        -- exists item. split; [| done]. apply elem_of_app. right.
           by apply list_elem_of_singleton.
      * intros [y [Hy Hk]]. apply elem_of_app in Hy as [Hy | Hy].
        -- left. by exists y.
        -- apply list_elem_of_singleton in Hy. subst y. by right.
Qed.

Lemma removeDuplicates_snoc data item :
  removeDuplicates (data ++ [item]) =
    if Map_has (uniqueMap_of data) (item_key item) then removeDuplicates data
    else removeDuplicates data ++ [item].
Proof.
  unfold removeDuplicates, Map_values. fold (uniqueMap_of (data ++ [item])).
  fold (uniqueMap_of data).
  rewrite uniqueMap_of_snoc, removeDuplicates_step_eq.
  destruct (Map_has _ _); [done |]. by rewrite map_app.
Qed.

(** An observation is retained exactly when it stands in the input with no
    observation of the same key before it. *)
Lemma removeDuplicates_elem data x :
  x ∈ removeDuplicates data <->
  ∃ l1 l2, data = l1 ++ x :: l2 ∧ ∀ y, y ∈ l1 -> item_key y ≠ item_key x.
Proof.
  induction data as [|item data IH] using rev_ind.
  - split; [intros H; by apply elem_of_nil in H |].
    intros (l1 & l2 & H & _). by destruct l1.
  - rewrite removeDuplicates_snoc.
    destruct (Map_has (uniqueMap_of data) (item_key item)) eqn:Hhas.
    + rewrite IH. split.
      * intros (l1 & l2 & -> & Hl1). exists l1, (l2 ++ [item]).
        split; [| done]. by rewrite <- app_assoc.
      * intros (l1 & l2 & Heq & Hl1).
        destruct l2 as [|z l2 _] using rev_ind.
        -- apply app_inj_tail in Heq as [-> ->].
           apply uniqueMap_of_has in Hhas as (y & Hy & Hk).
           by destruct (Hl1 y Hy).
        -- rewrite app_comm_cons, app_assoc in Heq.
           apply app_inj_tail in Heq as [-> ->]. by exists l1, l2.
    + rewrite elem_of_app, list_elem_of_singleton, IH. split.
      * intros [(l1 & l2 & -> & Hl1) | ->].
        -- exists l1, (l2 ++ [item]). split; [| done]. by rewrite <- app_assoc.
        -- exists data, []. split; [done |]. intros y Hy Hk.
           assert (Map_has (uniqueMap_of data) (item_key item) = true)
             by (apply uniqueMap_of_has; eauto).
           congruence.
      * intros (l1 & l2 & Heq & Hl1).
        destruct l2 as [|z l2 _] using rev_ind.
        -- apply app_inj_tail in Heq as [-> ->]. by right.
        -- rewrite app_comm_cons, app_assoc in Heq.
           apply app_inj_tail in Heq as [-> ->]. left. by exists l1, l2.
Qed.

(** No two retained observations share a key. *)
Lemma removeDuplicates_NoDup data :
  NoDup (item_key <$> removeDuplicates data).
Proof.
  induction data as [|item data IH] using rev_ind; [constructor |].
  rewrite removeDuplicates_snoc.
  destruct (Map_has (uniqueMap_of data) (item_key item)) eqn:Hhas; [done |].
  rewrite fmap_app. apply NoDup_app. split_and!; [done | | apply NoDup_singleton].
  intros k Hk Hk'. apply list_elem_of_singleton in Hk'. subst k.
  apply Map_has_false in Hhas. apply Hhas.
  rewrite uniqueMap_of_keyed, <- list_fmap_compose. exact Hk.
Qed.

(** The retained observations keep the order of the input. *)
Lemma removeDuplicates_sublist data :
  sublist (removeDuplicates data) data.
Proof.
  induction data as [|item data IH] using rev_ind; [constructor |].
  rewrite removeDuplicates_snoc. destruct (Map_has _ _).
  - by apply sublist_inserts_r.
  - by apply sublist_app.
Qed.

(** An observation whose key has already been read leaves no trace. *)
Lemma removeDuplicates_drop_later l1 l2 l3 o1 o2 :
  item_key o1 = item_key o2 ->
  removeDuplicates (l1 ++ o1 :: l2 ++ o2 :: l3) =
  removeDuplicates (l1 ++ o1 :: l2 ++ l3).
Proof.
  intros Hk. unfold removeDuplicates. f_equal.
  rewrite !app_comm_cons, !app_assoc, !fold_left_app. simpl. f_equal.
  rewrite removeDuplicates_step_eq.
  assert (Map_has (uniqueMap_of ((l1 ++ o1 :: l2))) (item_key o2) = true)
    as H.
  { apply uniqueMap_of_has. exists o1. split; [| done].
    apply elem_of_app. right. apply elem_of_cons. by left. }
  unfold uniqueMap_of in H. rewrite fold_left_app in H. simpl in H.
  by rewrite H.
Qed.

End RemoveDuplicates.

(** ** Properties of the [fetchPrices] loop *)
Section FetchPrices.
Import JS SwapForm Spec.

Implicit Types (data l : list CurrenciesModel) (item : CurrenciesModel).

Lemma Object_assign_ne (o : gmap string number) (k c : string) (x : number) :
  k ≠ c -> Object_assign o k x !! c = o !! c.
Proof.
  intros Hne. unfold Object_assign.
  destruct (o !! k); [by rewrite lookup_insert_ne |].
  destruct (String.eqb k "__proto__"); [done | by rewrite lookup_insert_ne].
Qed.

Lemma Object_assign_eq (o : gmap string number) (k : string) (x : number) :
  k ≠ "__proto__" -> Object_assign o k x !! k = Some x.
Proof.
  intros Hne. unfold Object_assign.
  destruct (o !! k); [by rewrite lookup_insert_eq |].
  destruct (String.eqb_spec k "__proto__"); [done | by rewrite lookup_insert_eq].
Qed.

Lemma Object_assign_proto (o : gmap string number) (x : number) :
  o !! "__proto__" = None -> Object_assign o "__proto__" x = o.
Proof. intros H. unfold Object_assign. by rewrite H. Qed.

Lemma Object_assign_insert (o : gmap string number) (k : string) (x : number) :
  k ≠ "__proto__" -> Object_assign o k x = <[k := x]> o.
Proof.
  intros Hne. unfold Object_assign. destruct (o !! k); [done |].
  by destruct (String.eqb_spec k "__proto__").
Qed.

Lemma fetchPrices_step_eq (st : gmap string number * list CurrenciesModel) item :
  fetchPrices_step st item =
    match item_rate item with
    | Some r =>
        (Object_assign st.1 (currency item) r, st.2 ++ [meta_of item])
    | None => st
    end.
Proof.
  destruct st as [priceMap availableCurrencies].
  unfold fetchPrices_step, item_rate.
  destruct (price item) as [p|]; [| done]. by destruct (truthy_number p).
Qed.

Lemma fetchPrices_process data :
  fetchPrices data = process (removeDuplicates data).
Proof. done. Qed.

Lemma process_snoc l item :
  process (l ++ [item]) = fetchPrices_step (process l) item.
Proof. unfold process. by rewrite fold_left_app. Qed.

(** One display entry per priced observation, in order. *)
Lemma process_currencies l :
  (process l).2 = meta_of <$> filter priced l.
Proof.
  induction l as [|item l IH] using rev_ind; [done |].
  rewrite process_snoc, fetchPrices_step_eq, filter_app, fmap_app.
  rewrite filter_cons, filter_nil.
  destruct (decide (priced item)) as [[r Hr] | Hn].
  - rewrite Hr. simpl. by rewrite IH.
  - destruct (item_rate item) as [r|] eqn:Hr.
    + destruct Hn. unfold priced. rewrite Hr. by eexists.
    + simpl. by rewrite app_nil_r.
Qed.

(** The table never gets an own property [__proto__]. *)
Lemma process_no_proto l : (process l).1 !! "__proto__" = None.
Proof.
  induction l as [|item l IH] using rev_ind; [done |].
  rewrite process_snoc, fetchPrices_step_eq.
  destruct (item_rate item) as [r|]; [| done]. simpl.
  destruct (decide (currency item = "__proto__")) as [-> | Hne].
  - by rewrite Object_assign_proto.
  - by rewrite Object_assign_ne.
Qed.

(** The rate of a currency is the one contributed by its last priced
    observation; the name [__proto__] never gets one. *)
Lemma process_rate l (c : string) :
  (process l).1 !! c =
    if decide (c = "__proto__") then None
    else last (omap item_rate (filter (fun item => currency item = c) l)).
Proof.
  destruct (decide (c = "__proto__")) as [-> | Hproto];
    [apply process_no_proto |].
  induction l as [|item l IH] using rev_ind; [done |].
  rewrite process_snoc, fetchPrices_step_eq, filter_app, omap_app.
  rewrite filter_cons, filter_nil.
  destruct (decide (currency item = c)) as [Hc | Hc]; simpl.
  - destruct (item_rate item) as [r|] eqn:Hr; simpl.
    + rewrite last_snoc. subst c. by rewrite Object_assign_eq.
    + by rewrite app_nil_r.
  - rewrite app_nil_r. destruct (item_rate item) as [r|]; [| done].
    simpl. by rewrite Object_assign_ne.
Qed.

End FetchPrices.

(** ** Properties of the host conversions *)
Section HostFacts.
Import JS Spec.

Lemma mul_NaN_l (y : number) : mul NaN y = NaN.
Proof. by destruct y. Qed.

Lemma div_NaN_l (y : number) : div NaN y = NaN.
Proof. by destruct y. Qed.

Lemma mul_NaN_r (x : number) : mul x NaN = NaN.
Proof. by destruct x. Qed.

Lemma div_NaN_r (x : number) : div x NaN = NaN.
Proof. by destruct x. Qed.

Lemma toFixed_NaN fd : toFixed NaN fd = "NaN".
Proof. done. Qed.

Lemma string_app_cons c (a b : string) : String c a +:+ b = String c (a +:+ b).
Proof. reflexivity. Qed.

Lemma string_app_nil (b : string) : "" +:+ b = b.
Proof. reflexivity. Qed.

Lemma string_length_app (a b : string) :
  String.length (a +:+ b) = String.length a + String.length b.
Proof.
  induction a as [|c a IH]; [done |].
  rewrite string_app_cons. simpl. by rewrite IH.
Qed.

Lemma string_take_drop n (s : string) :
  string_take n s +:+ string_drop n s = s.
Proof.
  revert s. induction n as [|n IH]; intros [|c s]; simpl; try done.
  by rewrite string_app_cons, IH.
Qed.

Lemma string_drop_length n (s : string) :
  String.length (string_drop n s) = String.length s - n.
Proof.
  revert s. induction n as [|n IH]; intros [|c s]; simpl; try done.
Qed.

Lemma string_take_length n (s : string) :
  String.length (string_take n s) = n `min` String.length s.
Proof.
  revert s. induction n as [|n IH]; intros [|c s]; simpl; try done.
  by rewrite IH.
Qed.

Lemma zeros_length n : String.length (zeros n) = n.
Proof. induction n as [|n IH]; simpl; [done | by rewrite IH]. Qed.

Lemma all_digits_app (a b : string) :
  all_digits (a +:+ b) = all_digits a && all_digits b.
Proof.
  induction a as [|c a IH]; [done |].
  rewrite string_app_cons. simpl. by rewrite IH, andb_assoc.
Qed.

Lemma all_digits_zeros n : all_digits (zeros n) = true.
Proof. induction n as [|n IH]; simpl; [done | by rewrite IH]. Qed.

Lemma all_digits_take n (s : string) :
  all_digits s = true -> all_digits (string_take n s) = true.
Proof.
  revert s. induction n as [|n IH]; intros [|c s]; simpl; try done.
  intros [Hc Hs]%andb_true_iff. by rewrite Hc, IH.
Qed.

Lemma all_digits_drop n (s : string) :
  all_digits s = true -> all_digits (string_drop n s) = true.
Proof.
  revert s. induction n as [|n IH]; intros [|c s]; simpl; try done.
  intros [Hc Hs]%andb_true_iff. by apply IH.
Qed.

Lemma is_digit_digit_char (d : N) : (d < 10)%N -> is_digit (digit_char d) = true.
Proof.
  intros H. rewrite <- (N2Nat.id d). assert (N.to_nat d < 10) as Hk by lia.
  revert Hk. generalize (N.to_nat d). intros k Hk.
  do 10 (destruct k as [|k]; [reflexivity |]). lia.
Qed.

Lemma all_digits_digits_go fuel n acc :
  all_digits acc = true -> all_digits (digits_go fuel n acc) = true.
Proof.
  revert n acc. induction fuel as [|fuel IH]; intros n acc Hacc; simpl; [done |].
  assert (all_digits (String (digit_char (n mod 10)) acc) = true) as H.
  { simpl. rewrite Hacc, is_digit_digit_char; [done |].
    by apply N.mod_lt. }
  destruct (n / 10 =? 0)%N; [done | by apply IH].
Qed.

Lemma digits_go_nonempty fuel n acc :
  fuel ≠ 0 -> digits_go fuel n acc ≠ "".
Proof.
  revert n acc. induction fuel as [|fuel IH]; intros n acc Hf; [done |].
  simpl. destruct (n / 10 =? 0)%N; [done |].
  destruct fuel as [|fuel']; [done |]. by apply IH.
Qed.

Lemma all_digits_decimal_digits n : all_digits (decimal_digits n) = true.
Proof. by apply all_digits_digits_go. Qed.

Lemma decimal_digits_nonempty n : decimal_digits n ≠ "".
Proof. by apply digits_go_nonempty. Qed.

(** [fixed_digits] writes at least one digit, a point and [fd] digits. *)
Lemma fixed_digits_shape n fd :
  fd ≠ 0 ->
  ∃ a b, fixed_digits n fd = a +:+ "." +:+ b ∧ a ≠ "" ∧
         all_digits a = true ∧ all_digits b = true ∧ String.length b = fd.
Proof.
  intros Hfd. unfold fixed_digits. destruct fd as [|fd']; [done |].
  set (fd := S fd').
  set (m := decimal_digits n).
  set (m' := if String.length m <=? fd
             then zeros (S fd - String.length m) +:+ m else m).
  assert (all_digits m' = true) as Hd.
  { subst m'. destruct (_ <=? _).
    - rewrite all_digits_app, all_digits_zeros. apply all_digits_decimal_digits.
    - apply all_digits_decimal_digits. }
  assert (fd < String.length m') as Hlen.
  { subst m'. destruct (Nat.leb_spec (String.length m) fd) as [Hle | Hlt]; [| done].
    rewrite string_length_app, zeros_length. lia. }
  eexists _, _. split_and!; [done | | by apply all_digits_take
                            | by apply all_digits_drop |].
  - intros H. apply (f_equal String.length) in H.
    rewrite string_take_length in H. simpl in H. lia.
  - rewrite string_drop_length. lia.
Qed.

(** In its fixed-point range, [toFixed] writes exactly [fd] digits after the
    point. *)
Lemma toFixed_fixed_point (x : number) fd :
  fd ≠ 0 -> fixed_range x = true -> fixed_point_text fd (toFixed x fd).
Proof.
  intros Hfd Hx. destruct x as [s | s | | s m e]; try done.
  - destruct (fixed_digits_shape 0 fd Hfd) as (a & b & Heq & Ha).
    exists "", a, b. split; [done |]. split; [by left | done].
  - unfold fixed_range in Hx. unfold toFixed.
    destruct (exact_ratio m e) as [p q].
    destruct (10 ^ 21 * q <=? p)%Z; [done |].
    match goal with |- context [fixed_digits ?n fd] =>
      destruct (fixed_digits_shape n fd Hfd) as (a & b & -> & Ha) end.
    exists (if s then "-" else ""), a, b.
    split; [done |]. split; [destruct s; auto | done].
Qed.

End HostFacts.

(** ** The price catalogue *)
Section PriceCatalog.
Import JS SwapForm Spec.

Implicit Types (data l : list CurrenciesModel) (item : CurrenciesModel).

Lemma item_key_pair (x y : CurrenciesModel) :
  currency x = currency y -> date x = date y -> item_key x = item_key y.
Proof. unfold item_key. by intros -> ->. Qed.

Lemma fetchPrices_drop_later l1 l2 l3 o1 o2 :
  item_key o1 = item_key o2 ->
  fetchPrices (l1 ++ o1 :: l2 ++ o2 :: l3) = fetchPrices (l1 ++ o1 :: l2 ++ l3).
Proof.
  intros Hk. rewrite !fetchPrices_process.
  by rewrite (removeDuplicates_drop_later _ _ _ _ _ Hk).
Qed.

Lemma fetchPrices_rate_cases data (c : string) :
  (fetchPrices data).1 !! c =
    if decide (c = "__proto__") then None
    else last (omap item_rate
                 (filter (fun item => currency item = c) (removeDuplicates data))).
Proof. rewrite fetchPrices_process. apply process_rate. Qed.

Lemma fetchPrices_rate data (c : string) :
  c ≠ "__proto__" ->
  (fetchPrices data).1 !! c =
    last (omap item_rate
            (filter (fun item => currency item = c) (removeDuplicates data))).
Proof. intros Hc. rewrite fetchPrices_rate_cases. by rewrite decide_False. Qed.

Lemma fetchPrices_no_proto data : (fetchPrices data).1 !! "__proto__" = None.
Proof. rewrite fetchPrices_rate_cases. by rewrite decide_True. Qed.

Lemma fetchPrices_rate_Some data (c : string) (r : number) :
  (fetchPrices data).1 !! c = Some r ->
  c ≠ "__proto__" ∧
  last (omap item_rate
          (filter (fun item => currency item = c) (removeDuplicates data)))
    = Some r.
Proof.
  rewrite fetchPrices_rate_cases. destruct (decide (c = "__proto__")); [done |].
  by intros H.
Qed.

Lemma last_omap_Some {A B} (f : A -> option B) (l : list A) (b : B) :
  last (omap f l) = Some b -> ∃ a, a ∈ l ∧ f a = Some b.
Proof.
  induction l as [|a l IH] using rev_ind; [done |].
  rewrite omap_app. simpl. destruct (f a) as [b'|] eqn:Hf; simpl.
  - rewrite last_snoc. intros [= ->]. exists a. split; [| done].
    apply elem_of_app. right. by apply list_elem_of_singleton.
  - rewrite app_nil_r. intros H. destruct (IH H) as (a' & Ha' & Hfa').
    exists a'. split; [| done]. apply elem_of_app. by left.
Qed.

Lemma last_omap_is_Some {A B} (f : A -> option B) (l : list A) :
  is_Some (last (omap f l)) <-> ∃ a, a ∈ l ∧ is_Some (f a).
Proof.
  split.
  - intros [b Hb]. destruct (last_omap_Some f l b Hb) as (a & Ha & Hfa).
    exists a. split; [done | by eexists].
  - intros (a & Ha & [b Hb]).
    assert (b ∈ omap f l) as Hin by (apply list_elem_of_omap; eauto).
    destruct (omap f l) as [|b0 l0] using rev_ind.
    + by apply elem_of_nil in Hin.
    + rewrite last_snoc. by eexists.
Qed.

(** The currencies on display are the currencies that have a rate. *)
Lemma fetchPrices_currency_rate data (c : string) :
  c ≠ "__proto__" ->
  c ∈ currency <$> (fetchPrices data).2 <-> is_Some ((fetchPrices data).1 !! c).
Proof.
  intros Hproto.
  rewrite fetchPrices_rate by done. rewrite fetchPrices_process, process_currencies.
  rewrite last_omap_is_Some, <- list_fmap_compose. split.
  - intros (item & Hc & Hin)%list_elem_of_fmap. simpl in Hc.
    apply list_elem_of_filter in Hin as [Hp Hin]. exists item. split; [| done].
    apply list_elem_of_filter. by split.
  - intros (item & Hin & Hp). apply list_elem_of_filter in Hin as [Hc Hin].
    apply list_elem_of_fmap. exists item. split; [done |].
    apply list_elem_of_filter. by split.
Qed.

(** A property can be read exactly when it is among the keys. *)
Lemma Object_get_includes {V} (o : list (string * V)) (c : string) :
  Array_includes (Object_keys o) c = true <-> is_Some (Object_get o c).
Proof.
  unfold Array_includes, Object_keys, Object_get.
  induction o as [|[k v] o IH]; simpl.
  - split; [done | by intros [? ?]].
  - rewrite (String.eqb_sym c k). destruct (String.eqb k c); simpl.
    + split; [by eexists | done].
    + exact IH.
Qed.

Lemma iconName_resolved (c : string) :
  ToString_opt (iconName c) = resolved_ticker c.
Proof.
  unfold iconName, resolved_ticker.
  destruct (Array_includes (Object_keys mapIncorrectObj) c) eqn:Hin.
  - apply Object_get_includes in Hin as [t ->]. done.
  - destruct (Object_get mapIncorrectObj c) as [t|] eqn:Hget; [| done].
    assert (Array_includes (Object_keys mapIncorrectObj) c = true); [| congruence].
    apply Object_get_includes. by eexists.
Qed.

Lemma meta_of_entry item : meta_of item = entry_of item.
Proof. unfold meta_of, entry_of, icon_url. by rewrite iconName_resolved. Qed.

(** The date is part of the key. *)
Lemma item_key_same_currency (x y : CurrenciesModel) :
  currency x = currency y ->
  item_key x = item_key y <-> ToString_opt (date x) = ToString_opt (date y).
Proof.
  unfold item_key. intros ->. split; [| by intros ->].
  intros H. apply (inj (String.app _)) in H.
  by apply (inj (String.app "-")) in H.
Qed.

Lemma dash_free_key (c1 c2 d1 d2 : string) :
  dash_free c1 = true -> dash_free c2 = true ->
  c1 +:+ "-" +:+ d1 = c2 +:+ "-" +:+ d2 -> c1 = c2 ∧ d1 = d2.
Proof.
  revert c2. induction c1 as [|a c1 IH]; intros [|b c2] H1 H2 Heq;
    rewrite ?string_app_nil, ?string_app_cons in Heq; simpl in H1, H2.
  - injection Heq as Heq. by rewrite !string_app_nil in Heq.
  - injection Heq as <- _. done.
  - injection Heq as -> _. done.
  - injection Heq as -> Heq.
    apply andb_true_iff in H1 as [_ H1]. apply andb_true_iff in H2 as [_ H2].
    destruct (IH c2 H1 H2 Heq) as [-> ->]. done.
Qed.

(** For currencies without a dash the key is the pair. *)
Lemma item_key_dash_free (x y : CurrenciesModel) :
  dash_free (currency x) = true -> dash_free (currency y) = true ->
  item_key x = item_key y <->
  currency x = currency y ∧ ToString_opt (date x) = ToString_opt (date y).
Proof.
  intros Hx Hy. unfold item_key. split.
  - by apply dash_free_key.
  - by intros [-> ->].
Qed.

End PriceCatalog.

(** ** Claims about the price catalogue *)
Section CatalogClaims.
Import JS SwapForm Spec.

(** C4. [removeDuplicates] keys an observation by [currency-date] and keeps
    the first observation of every key.  An observation is retained exactly
    when no observation before it has its key; an observation with the
    currency and date of an earlier one changes nothing in the result, whatever
    its price.  The date is part of the key: observations of one currency have
    one key exactly when their dates render alike, and for currencies without
    a dash the key is the pair, so that in a feed of such currencies an
    observation is retained exactly when no earlier one has its currency and
    date.  A/d1/1, A/d2/5, A/d1/9 keeps the first two; the three observations
    A/d1/1, A/d1/99, B/d1/2 give the rate table [{A: 1, B: 2}]. *)
Theorem removeDuplicates_first_wins :
  (∀ (data : list CurrenciesModel) x,
     x ∈ removeDuplicates data <->
     ∃ l1 l2, data = l1 ++ x :: l2 ∧ ∀ y, y ∈ l1 -> item_key y ≠ item_key x)
  ∧ (∀ l1 l2 l3 (x y : CurrenciesModel),
       currency x = currency y -> date x = date y ->
       removeDuplicates (l1 ++ x :: l2 ++ y :: l3) =
         removeDuplicates (l1 ++ x :: l2 ++ l3)
       ∧ fetchPrices (l1 ++ x :: l2 ++ y :: l3) =
           fetchPrices (l1 ++ x :: l2 ++ l3))
  ∧ (∀ x y : CurrenciesModel,
       currency x = currency y ->
       (item_key x = item_key y <->
        ToString_opt (date x) = ToString_opt (date y)))
  ∧ (∀ x y : CurrenciesModel,
       dash_free (currency x) = true -> dash_free (currency y) = true ->
       (item_key x = item_key y <->
        currency x = currency y
        ∧ ToString_opt (date x) = ToString_opt (date y)))
  ∧ (∀ (data : list CurrenciesModel) x,
       Forall (fun item => dash_free (currency item) = true) data ->
       (x ∈ removeDuplicates data <->
        ∃ l1 l2, data = l1 ++ x :: l2 ∧
          ∀ y, y ∈ l1 ->
            ¬ (currency y = currency x
               ∧ ToString_opt (date y) = ToString_opt (date x))))
  ∧ removeDuplicates
      [observation "A" "d1" 1; observation "A" "d2" 5; observation "A" "d1" 9]
    = [observation "A" "d1" 1; observation "A" "d2" 5]
  ∧ removeDuplicates
      [observation "A" "d1" 1; observation "A" "d1" 99; observation "B" "d1" 2]
    = [observation "A" "d1" 1; observation "B" "d1" 2]
  ∧ (fetchPrices
       [observation "A" "d1" 1; observation "A" "d1" 99; observation "B" "d1" 2]).1
    = <["A" := num 1]> (<["B" := num 2]> ∅).
Proof.
  split_and!.
  - apply removeDuplicates_elem.
  - intros l1 l2 l3 x y Hc Hd. pose proof (item_key_pair x y Hc Hd) as Hk.
    split; [by apply removeDuplicates_drop_later | by apply fetchPrices_drop_later].
  - apply item_key_same_currency.
  - apply item_key_dash_free.
  - intros data x Hdata. rewrite removeDuplicates_elem. split.
    + intros (l1 & l2 & -> & Hfirst). exists l1, l2. split; [done |].
      intros y Hy Hpair. apply (Hfirst y Hy).
      apply Forall_app in Hdata as [Hl1 Hx]. apply Forall_cons in Hx as [Hx _].
      rewrite Forall_forall in Hl1. by apply item_key_dash_free; auto.
    + intros (l1 & l2 & -> & Hfirst). exists l1, l2. split; [done |].
      intros y Hy Hkey. apply (Hfirst y Hy).
      apply Forall_app in Hdata as [Hl1 Hx]. apply Forall_cons in Hx as [Hx _].
      rewrite Forall_forall in Hl1. by apply item_key_dash_free in Hkey; auto.
  - reflexivity.
  - reflexivity.
  - apply map_eq. intros c. rewrite fetchPrices_rate_cases.
    change (removeDuplicates _) with
      [observation "A" "d1" 1; observation "B" "d1" 2].
    rewrite !filter_cons, filter_nil. simpl.
    destruct (decide (c = "__proto__")) as [-> | Hp]; [by vm_compute |].
    destruct (decide (c = "A")) as [-> | HA].
    + by vm_compute.
    + rewrite decide_False by done. rewrite lookup_insert_ne by done.
      destruct (decide (c = "B")) as [-> | HB].
      * by vm_compute.
      * rewrite decide_False by done. by rewrite lookup_insert_ne.
Qed.

Lemma removeDuplicates_first_wins_witness :
  (currency (observation "A" "d1" 1) = currency (observation "A" "d1" 99)
   ∧ date (observation "A" "d1" 1) = date (observation "A" "d1" 99)
   ∧ fetchPrices
       ([] ++ observation "A" "d1" 1 :: [] ++ observation "A" "d1" 99
           :: [observation "B" "d1" 2])
     = fetchPrices
         ([] ++ observation "A" "d1" 1 :: [] ++ [observation "B" "d1" 2]))
  ∧ (currency (observation "A" "d1" 1) = currency (observation "A" "d2" 5)
     ∧ ToString_opt (date (observation "A" "d1" 1))
       ≠ ToString_opt (date (observation "A" "d2" 5))
     ∧ item_key (observation "A" "d1" 1) ≠ item_key (observation "A" "d2" 5)).
Proof.
  destruct removeDuplicates_first_wins as (_ & Hsame & Hdate & _).
  split.
  - split; [reflexivity |]. split; [reflexivity |].
    apply (Hsame [] [] [observation "B" "d1" 2]); reflexivity.
  - split; [reflexivity |].
    assert (ToString_opt (date (observation "A" "d1" 1))
            ≠ ToString_opt (date (observation "A" "d2" 5))) as Hne
      by discriminate.
    split; [exact Hne |]. intros Hkey. apply Hne.
    by apply (Hdate (observation "A" "d1" 1) (observation "A" "d2" 5)).
Defined.

(** C9. The key is the text [currency-date], so observations of different
    currencies can share a key (A-B/C and A/B-C are both keyed A-B-C); of two
    observations with one key only the first is retained, the currency of the
    second gets no rate and no display entry of its own, and in any input the
    second changes nothing in the result. *)
Theorem key_collision_second_dropped :
  (currency (observation "A-B" "C" 1) ≠ currency (observation "A" "B-C" 2)
   ∧ item_key (observation "A-B" "C" 1) = "A-B-C"
   ∧ item_key (observation "A" "B-C" 2) = "A-B-C")
  ∧ ∀ o1 o2 : CurrenciesModel,
      item_key o1 = item_key o2 ->
      removeDuplicates [o1; o2] = [o1]
      ∧ (currency o2 ≠ currency o1 ->
         (fetchPrices [o1; o2]).1 !! currency o2 = None
         ∧ currency o2 ∉ currency <$> (fetchPrices [o1; o2]).2)
      ∧ ∀ l1 l2 l3,
          fetchPrices (l1 ++ o1 :: l2 ++ o2 :: l3) =
            fetchPrices (l1 ++ o1 :: l2 ++ l3).
Proof.
  split; [done |]. intros o1 o2 Hk.
  assert (removeDuplicates [o1; o2] = [o1]) as Hrd.
  { unfold removeDuplicates, removeDuplicates_step. simpl.
    by rewrite Hk, String.eqb_refl. }
  split_and!; [done | | by intros; apply fetchPrices_drop_later].
  intros Hc.
  assert (filter (fun item => currency item = currency o2) [o1] = []) as Hf.
  { rewrite filter_cons, filter_nil. by rewrite decide_False. }
  split.
  - rewrite fetchPrices_rate_cases, Hrd, Hf. by case_decide.
  - rewrite fetchPrices_process, Hrd, process_currencies, <- list_fmap_compose.
    intros (item & Hcur & Hin)%list_elem_of_fmap. simpl in Hcur.
    apply list_elem_of_filter in Hin as [_ Hin].
    apply list_elem_of_singleton in Hin. by subst item.
Qed.

Lemma key_collision_second_dropped_witness :
  item_key (observation "A-B" "C" 1) = item_key (observation "A" "B-C" 2)
  ∧ removeDuplicates [observation "A-B" "C" 1; observation "A" "B-C" 2]
    = [observation "A-B" "C" 1]
  ∧ (fetchPrices [observation "A-B" "C" 1; observation "A" "B-C" 2]).1 !! "A"
    = None.
Proof.
  split; [reflexivity |].
  destruct key_collision_second_dropped as [_ H].
  destruct (H (observation "A-B" "C" 1) (observation "A" "B-C" 2))
    as (H1 & H2 & _); [reflexivity |].
  split; [exact H1 |]. apply H2. discriminate.
Defined.

(** C3, as stated, fails: with A priced 1 under d1 and 5 under d2, both
    observations survive the duplicate filter, the first contributes 1, and
    the rate table holds 5; and the same two observations of the currency
    [__proto__] leave no entry at all. *)
Lemma rate_first_observation_fails :
  removeDuplicates [observation "A" "d1" 1; observation "A" "d2" 5]
    = [observation "A" "d1" 1; observation "A" "d2" 5]
  ∧ item_rate (observation "A" "d1" 1) = Some (num 1)
  ∧ (fetchPrices [observation "A" "d1" 1; observation "A" "d2" 5]).1 !! "A"
    = Some (num 5)
  ∧ num 5 ≠ num 1
  ∧ (fetchPrices
       [observation "__proto__" "d1" 1; observation "__proto__" "d2" 5]).1
    = ∅.
Proof.
  split_and!;
    [reflexivity | by vm_compute | by vm_compute | discriminate
    | by vm_compute].
Qed.

(** C3, amended. The rate of a currency is the one contributed by the LAST
    of its priced observations in the deduplicated sequence: every priced
    observation overwrites the entry of its currency.  The one name without
    an entry is [__proto__]: an assignment of a Number to it stores nothing. *)
Theorem rate_last_observation_wins (data : list CurrenciesModel) (c : string) :
  (fetchPrices data).1 !! c =
    if decide (c = "__proto__") then None
    else last (omap item_rate
                 (filter (fun item => currency item = c)
                    (removeDuplicates data))).
Proof. apply fetchPrices_rate_cases. Qed.

(** C5, as stated, fails: a price of -1 is truthy, so the rate -1 is stored,
    and -1 is below zero. *)
Lemma negative_rate_stored :
  (fetchPrices [observation "A" "d1" (-1)]).1 !! "A" = Some (num (-1))
  ∧ SFltb (num (-1)) zero = true
  ∧ SFltb zero (num (-1)) = false.
Proof. split_and!; by vm_compute. Qed.

(** C5, amended. Every rate in the table is [parseFloat] of the price of a
    retained observation of that currency whose price is present and truthy
    (not 0, not NaN); a currency without such an observation has no entry.
    The sign of the price is not examined. *)
Theorem rate_table_sources (data : list CurrenciesModel) (c : string) (r : number) :
  (fetchPrices data).1 !! c = Some r ->
  ∃ item p,
    item ∈ removeDuplicates data ∧ currency item = c ∧
    price item = Some p ∧ truthy_number p = true ∧ r = parseFloat_number p.
Proof.
  intros H. apply fetchPrices_rate_Some in H as [_ H].
  apply last_omap_Some in H as (item & Hin & Hr).
  apply list_elem_of_filter in Hin as [Hc Hin].
  unfold item_rate in Hr. destruct (price item) as [p|] eqn:Hp; [| done].
  destruct (truthy_number p) eqn:Ht; [| done].
  exists item, p. split_and!; try done. congruence.
Qed.

Lemma rate_table_sources_witness :
  (fetchPrices [observation "A" "d1" (-1)]).1 !! "A" = Some (num (-1))
  ∧ ∃ item p,
      item ∈ removeDuplicates [observation "A" "d1" (-1)] ∧
      currency item = "A" ∧ price item = Some p ∧
      truthy_number p = true ∧ num (-1) = parseFloat_number p.
Proof.
  split; [by vm_compute |].
  apply (rate_table_sources [observation "A" "d1" (-1)] "A" (num (-1))).
  by vm_compute.
Defined.

(** C6, as stated, fails: a currency priced under two dates is listed
    twice; and the currency [__proto__] is listed while the rate table has no
    key for it. *)
Lemma currency_listed_twice :
  currency <$> (fetchPrices [observation "A" "d1" 1; observation "A" "d2" 5]).2
    = ["A"; "A"]
  ∧ ¬ NoDup
      (currency <$>
         (fetchPrices [observation "A" "d1" 1; observation "A" "d2" 5]).2)
  ∧ currency <$> (fetchPrices [observation "__proto__" "d1" 1]).2
    = ["__proto__"]
  ∧ (fetchPrices [observation "__proto__" "d1" 1]).1 = ∅.
Proof.
  assert (currency <$>
            (fetchPrices [observation "A" "d1" 1; observation "A" "d2" 5]).2
          = ["A"; "A"]) as H by by vm_compute.
  split; [done |]. split; [| split; by vm_compute].
  rewrite H. intros Hnd. apply NoDup_cons in Hnd as [Hnin _].
  apply Hnin. by apply list_elem_of_singleton.
Qed.

(** C6, amended. The display list has one entry per retained observation with
    a present, truthy price, in the order of those observations in the input
    (a currency priced under several dates is listed once per date); the set
    of its currencies, without the name [__proto__] (which is listed but
    cannot be stored), is the set of keys of the rate table. *)
Theorem currencies_follow_observations (data : list CurrenciesModel) :
  (fetchPrices data).2 = meta_of <$> filter priced (removeDuplicates data)
  ∧ sublist (removeDuplicates data) data
  ∧ dom (fetchPrices data).1 =@{gset string}
      list_to_set (currency <$> (fetchPrices data).2) ∖ {["__proto__"]}.
Proof.
  split_and!.
  - rewrite fetchPrices_process. apply process_currencies.
  - apply removeDuplicates_sublist.
  - apply set_eq. intros c.
    rewrite elem_of_dom, elem_of_difference, elem_of_list_to_set,
      elem_of_singleton.
    destruct (decide (c = "__proto__")) as [-> | Hc].
    + rewrite fetchPrices_no_proto. split; [by intros [? ?] | by intros [_ ?]].
    + rewrite (fetchPrices_currency_rate data c Hc). tauto.
Qed.

(** C8. The display list is made of one entry per retained, priced
    observation, with the icon URL [<base><ticker>.svg], where the ticker is
    the entry of the override table when the currency is one of its keys and
    the currency itself otherwise; a feed with STEVMOS and BTC lists the URLs
    ending in [stEVMos.svg] and [BTC.svg]. *)
Theorem icon_url_resolved_ticker :
  (∀ data : list CurrenciesModel,
     (fetchPrices data).2 = entry_of <$> filter priced (removeDuplicates data))
  ∧ (∀ data : list CurrenciesModel,
       Forall (fun entry =>
                 iconUrl entry =
                   Some (icon_base +:+ resolved_ticker (currency entry)
                           +:+ ".svg"))
              (fetchPrices data).2)
  ∧ Forall (fun kv => resolved_ticker kv.1 = kv.2) mapIncorrectObj
  ∧ (∀ c : string, c ∉ Object_keys mapIncorrectObj -> resolved_ticker c = c)
  ∧ (fetchPrices [observation "STEVMOS" "d1" 1; observation "BTC" "d1" 2]).2
    = [ {| currency := "STEVMOS"; date := None; price := None;
           iconUrl :=
             Some "https://raw.githubusercontent.com/Switcheo/token-icons/main/tokens/stEVMos.svg" |};
        {| currency := "BTC"; date := None; price := None;
           iconUrl :=
             Some "https://raw.githubusercontent.com/Switcheo/token-icons/main/tokens/BTC.svg" |} ]
  ∧ icon_url "STEVMOS" = icon_base +:+ "stEVMos.svg"
  ∧ icon_url "BTC" = icon_base +:+ "BTC.svg".
Proof.
  split_and!.
  - intros data. rewrite fetchPrices_process, process_currencies.
    apply list_fmap_ext. intros _ item _. apply meta_of_entry.
  - intros data. rewrite fetchPrices_process, process_currencies.
    apply Forall_fmap, Forall_forall. intros item _. simpl.
    unfold icon_url. by rewrite iconName_resolved.
  - by repeat constructor.
  - intros c Hc. unfold resolved_ticker.
    destruct (Object_get mapIncorrectObj c) as [t|] eqn:Hget; [| done].
    destruct Hc.
    assert (Array_includes (Object_keys mapIncorrectObj) c = true) as H
      by (apply Object_get_includes; by eexists).
    apply existsb_exists in H as (k & Hk & Heq).
    apply String.eqb_eq in Heq. subst k. by apply list_elem_of_In.
  - by vm_compute.
  - reflexivity.
  - reflexivity.
Qed.

Lemma icon_url_resolved_ticker_witness :
  ("BTC" ∉ Object_keys mapIncorrectObj)
  ∧ resolved_ticker "BTC" = "BTC"
  ∧ (fetchPrices [observation "BTC" "d1" 2]).2
    = [ {| currency := "BTC"; date := None; price := None;
           iconUrl := Some (icon_base +:+ "BTC" +:+ ".svg") |} ].
Proof.
  assert ("BTC" ∉ Object_keys mapIncorrectObj) as H.
  { intros Hin. apply list_elem_of_In in Hin. simpl in Hin.
    repeat destruct Hin as [Hin | Hin]; try discriminate. done. }
  destruct icon_url_resolved_ticker as (Hlist & _ & _ & Hother & _).
  pose proof (Hother "BTC" H) as Hbtc.
  split; [exact H |]. split; [exact Hbtc |].
  rewrite (Hlist [observation "BTC" "d1" 2]).
  change (removeDuplicates [observation "BTC" "d1" 2])
    with [observation "BTC" "d1" 2].
  rewrite filter_cons, filter_nil.
  rewrite decide_True by (by eexists).
  unfold entry_of. simpl. by rewrite Hbtc.
Defined.

End CatalogClaims.

(** ** The conversion *)
Section Conversion.
Import JS SwapForm Spec.

Implicit Types (rates prices : gmap string number).
Implicit Types (request : ConversionRequest).
Implicit Types (formData : gmap string (option string)).

(** The handler's guarded block, read against the policy: both currency
    fields must hold a non-empty String, the two reads of the table and the
    raw amount must be truthy, and a read that lands on an inherited member
    turns the result into the text NaN. *)
Lemma convert_eq request rates (previousResult : option string) :
  convert request rates previousResult =
    if chosen (fromCurrency request) && chosen (toCurrency request)
       && rate_truthy rates (fromCurrency request)
       && rate_truthy rates (toCurrency request)
       && truthy_opt truthy_string (fromAmount request)
    then Some (if inherited_read rates (fromCurrency request)
                  || inherited_read rates (toCurrency request)
               then "NaN"
               else candidate rates request)
    else previousResult.
Proof.
  unfold convert, conversion, chosen, rate_truthy, inherited_read, candidate,
    fromRate, toRate, Object_read.
  destruct request as [[fc|] [tc|] amt];
    cbn [fromCurrency toCurrency fromAmount truthy_opt]; try done.
  2: by destruct (truthy_string fc).
  destruct (truthy_string fc), (truthy_string tc); cbn [andb]; try done.
  destruct (rates !! fc) as [rf|];
    [destruct (truthy_number rf) eqn:Hrf | destruct (inherited fc)];
    (destruct (rates !! tc) as [rt|];
     [destruct (truthy_number rt) eqn:Hrt | destruct (inherited tc)]);
    cbn [truthy ToNumber andb orb default from_option id ToNumber_opt
           truthy_opt];
    rewrite ?Hrf, ?Hrt;
    cbn [truthy ToNumber andb orb]; rewrite ?Hrf; cbn [andb]; try done;
    (destruct amt as [amt|]; cbn [truthy_opt];
     [destruct (truthy_string amt) |]);
    rewrite ?andb_false_r; cbn [andb orb]; try done;
    by rewrite ?mul_NaN_r, ?div_NaN_l, ?div_NaN_r, ?toFixed_NaN.
Qed.

(** Without inherited members in play the conditions are the three of the
    policy. *)
Lemma rate_truthy_policy request rates :
  inherited_read rates (fromCurrency request) = false ->
  inherited_read rates (toCurrency request) = false ->
  rate_truthy rates (fromCurrency request)
    && rate_truthy rates (toCurrency request)
    && truthy_opt truthy_string (fromAmount request)
  = update_policy rates request.
Proof.
  unfold inherited_read, rate_truthy, update_policy, fromRate, toRate.
  destruct (fromCurrency request) as [fc|], (toCurrency request) as [tc|];
    cbn [truthy_opt]; try done.
  all: try (destruct (rates !! fc) as [rf|]);
    try (destruct (rates !! tc) as [rt|]);
    cbn [default from_option id truthy_opt]; try done.
  all: intros Hf Ht; rewrite ?Hf, ?Ht; try done.
  all: by rewrite ?andb_false_r.
Qed.

Lemma convert_policy_eq request rates (previousResult : option string) :
  inherited_read rates (fromCurrency request) = false ->
  inherited_read rates (toCurrency request) = false ->
  convert request rates previousResult =
    if chosen (fromCurrency request) && chosen (toCurrency request)
       && update_policy rates request
    then Some (candidate rates request)
    else previousResult.
Proof.
  intros Hf Ht. rewrite convert_eq, Hf, Ht.
  rewrite <- (rate_truthy_policy request rates Hf Ht).
  by rewrite !andb_assoc.
Qed.

Lemma inherited_truthy (c : string) : inherited c = true -> truthy_string c = true.
Proof. by destruct c. Qed.

Lemma handleInputChange_eq prices formData field value :
  handleInputChange prices formData field value =
    SetValue (<[field := value]> formData) ::
    (if String.eqb field "fromAmount" || String.eqb field "fromCurrency"
        || String.eqb field "toCurrency"
     then
       match conversion prices
               (prop (<[field := value]> formData) "fromCurrency")
               (prop (<[field := value]> formData) "toCurrency")
               (prop (<[field := value]> formData) "fromAmount") with
       | Some result =>
           [SetUpdater (fun prev => <["toAmount" := Some result]> prev)]
       | None => []
       end
     else []).
Proof. done. Qed.

(** The state after an edit: the edited form, with [toAmount] replaced when
    the edit is one of the three inputs and the conversion goes through. *)
Lemma after_input_eq prices formData field value :
  after_input prices formData field value =
    let newFormData := <[field := value]> formData in
    if String.eqb field "fromAmount" || String.eqb field "fromCurrency"
       || String.eqb field "toCurrency"
    then
      match conversion prices (prop newFormData "fromCurrency")
              (prop newFormData "toCurrency") (prop newFormData "fromAmount") with
      | Some result => <["toAmount" := Some result]> newFormData
      | None => newFormData
      end
    else newFormData.
Proof.
  unfold after_input. rewrite handleInputChange_eq. simpl.
  destruct (_ || _); [| done]. by destruct (conversion _ _ _ _).
Qed.

Lemma input_field_not_toAmount (field : string) :
  String.eqb field "fromAmount" || String.eqb field "fromCurrency"
    || String.eqb field "toCurrency" = true ->
  field ≠ "toAmount".
Proof. intros H ->. done. Qed.

(** [convert] is what the handler does to [toAmount] on an edit of one of
    the three inputs. *)
Lemma after_input_convert prices formData field value :
  String.eqb field "fromAmount" || String.eqb field "fromCurrency"
    || String.eqb field "toCurrency" = true ->
  let newFormData := <[field := value]> formData in
  prop (after_input prices formData field value) "toAmount" =
    convert {| fromCurrency := prop newFormData "fromCurrency";
               toCurrency := prop newFormData "toCurrency";
               fromAmount := prop newFormData "fromAmount" |}
      prices (prop formData "toAmount").
Proof.
  intros Hf. pose proof (input_field_not_toAmount field Hf) as Hne.
  rewrite after_input_eq. simpl. rewrite Hf. unfold convert. simpl.
  destruct (conversion _ _ _ _) as [result|].
  - unfold prop. by rewrite lookup_insert_eq.
  - unfold prop. by rewrite lookup_insert_ne.
Qed.

End Conversion.

(** ** Claims about the conversion *)
Section ConversionClaims.
Import JS SwapForm Spec.

(** C1, as stated, fails: with a currency named by the empty String in the
    table, [fromRate], [toRate] and the amount are all truthy and the candidate
    is 5.000000, yet the previous result is returned; and with the target
    [constructor], which [{A: 2, B: 4}] does not hold, [toRate] in the policy's
    sense is absent, yet the result is replaced, by the text NaN. *)
Lemma empty_currency_not_converted :
  update_policy (<["" := num 2]> (<["B" := num 4]> ∅)) (request_of "" "B" "10")
    = true
  ∧ candidate (<["" := num 2]> (<["B" := num 4]> ∅)) (request_of "" "B" "10")
    = "5.000000"
  ∧ convert (request_of "" "B" "10") (<["" := num 2]> (<["B" := num 4]> ∅))
      (Some "1.000000")
    = Some "1.000000"
  ∧ rates_AB !! "constructor" = None
  ∧ update_policy rates_AB (request_of "A" "constructor" "10") = false
  ∧ convert (request_of "A" "constructor" "10") rates_AB (Some "1.000000")
    = Some "NaN".
Proof. split_and!; by vm_compute. Qed.

(** C1, amended. [convert] replaces the result exactly when [fromCurrency]
    and [toCurrency] are non-empty Strings, the two reads of the rate table
    are truthy (an own rate that is not 0 or NaN, or a member the table
    inherits from [Object.prototype]) and the raw [fromAmount] is truthy; the
    new result is the candidate, and the text NaN when one of the reads is an
    inherited member; in every other case the previous result is returned
    unchanged.  When neither currency names an inherited member this is the
    policy: the candidate when both currencies are non-empty and the three
    conditions hold, the previous result whenever one of the three fails.
    A target that gives no truthy read, and the empty amount, never update. *)
Theorem convert_update_policy (request : ConversionRequest)
  (rates : gmap string number) (previousResult : option string) :
  convert request rates previousResult =
    (if chosen (fromCurrency request) && chosen (toCurrency request)
        && rate_truthy rates (fromCurrency request)
        && rate_truthy rates (toCurrency request)
        && truthy_opt truthy_string (fromAmount request)
     then Some (if inherited_read rates (fromCurrency request)
                   || inherited_read rates (toCurrency request)
                then "NaN"
                else candidate rates request)
     else previousResult)
  ∧ (inherited_read rates (fromCurrency request) = false ->
     inherited_read rates (toCurrency request) = false ->
     convert request rates previousResult =
       (if chosen (fromCurrency request) && chosen (toCurrency request)
           && update_policy rates request
        then Some (candidate rates request)
        else previousResult)
     ∧ (update_policy rates request = false ->
        convert request rates previousResult = previousResult))
  ∧ (rate_truthy rates (toCurrency request) = false ->
     convert request rates previousResult = previousResult)
  ∧ (fromAmount request = Some "" ->
     convert request rates previousResult = previousResult).
Proof.
  split_and!.
  - apply convert_eq.
  - intros Hf Ht. split; [by apply convert_policy_eq |].
    intros H. rewrite convert_policy_eq, H by done. by rewrite andb_false_r.
  - intros H. rewrite convert_eq, H. by rewrite andb_false_r.
  - intros H. rewrite convert_eq, H. cbn [truthy_opt truthy_string].
    by rewrite andb_false_r.
Qed.

Lemma convert_update_policy_witness :
  inherited_read rates_AB (fromCurrency (request_of "A" "C" "10")) = false
  ∧ inherited_read rates_AB (toCurrency (request_of "A" "C" "10")) = false
  ∧ update_policy rates_AB (request_of "A" "C" "10") = false
  ∧ convert (request_of "A" "C" "10") rates_AB (Some "7.000000")
    = Some "7.000000".
Proof.
  assert (inherited_read rates_AB (fromCurrency (request_of "A" "C" "10"))
          = false) as Hf by (vm_compute; reflexivity).
  assert (inherited_read rates_AB (toCurrency (request_of "A" "C" "10"))
          = false) as Ht by (vm_compute; reflexivity).
  assert (update_policy rates_AB (request_of "A" "C" "10") = false) as Hp
    by (vm_compute; reflexivity).
  split; [exact Hf |]. split; [exact Ht |]. split; [exact Hp |].
  destruct (convert_update_policy (request_of "A" "C" "10") rates_AB
              (Some "7.000000")) as (_ & Hpolicy & _).
  exact (proj2 (Hpolicy Hf Ht) Hp).
Defined.

(** C2, as stated, fails: with the target currency named by the empty String,
    the three values are truthy and the candidate is 5.000000, yet the result
    is not replaced; and with a non-empty amount that does not parse, the
    result is the text NaN, which has no digits after a decimal point. *)
Lemma empty_target_not_converted :
  update_policy (<["A" := num 2]> (<["" := num 4]> ∅)) (request_of "A" "" "10")
    = true
  ∧ candidate (<["A" := num 2]> (<["" := num 4]> ∅)) (request_of "A" "" "10")
    = "5.000000"
  ∧ convert (request_of "A" "" "10") (<["A" := num 2]> (<["" := num 4]> ∅))
      (Some "")
    = Some ""
  ∧ update_policy rates_AB (request_of "A" "B" "ten") = true
  ∧ convert (request_of "A" "B" "ten") rates_AB (Some "") = Some "NaN"
  ∧ ¬ fixed_point_text 6 "NaN".
Proof.
  split_and!; try by vm_compute.
  intros (sgn & a & b & Heq & Hs & Ha & Hda & _).
  destruct a as [|c a]; [done |].
  destruct Hs as [-> | ->]; rewrite ?string_app_nil, !string_app_cons in Heq;
    [injection Heq as <- _; done | discriminate].
Qed.

(** C2, amended. When [fromCurrency] and [toCurrency] are non-empty Strings
    with truthy rates and the amount is non-empty, the result is
    [(parseFloat(fromAmount) * fromRate / toRate).toFixed(6)]; that text has
    exactly 6 digits after the decimal point whenever the quotient is finite
    and below [10^21] in magnitude; with [{A: 2, B: 4}] and the request A, B,
    10 the result is 5.000000. *)
Theorem convert_candidate :
  (∀ (rates : gmap string number) (from to amount : string)
     (previousResult : option string) (fromRate toRate : number),
     from ≠ "" -> to ≠ "" -> amount ≠ "" ->
     rates !! from = Some fromRate -> truthy_number fromRate = true ->
     rates !! to = Some toRate -> truthy_number toRate = true ->
     convert (request_of from to amount) rates previousResult =
       Some (toFixed (div (mul (parseFloat amount) fromRate) toRate) 6)
     ∧ (fixed_range (div (mul (parseFloat amount) fromRate) toRate) = true ->
        fixed_point_text 6
          (toFixed (div (mul (parseFloat amount) fromRate) toRate) 6)))
  ∧ (∀ previousResult : option string,
       convert (request_of "A" "B" "10") rates_AB previousResult
         = Some "5.000000").
Proof.
  split.
  - intros rates from to amount prev rf rt Hf Ht Ha Hrf Htf Hrt Htt.
    split; [| by apply toFixed_fixed_point].
    rewrite convert_policy_eq
      by (unfold inherited_read, request_of;
          cbn [fromCurrency toCurrency]; by rewrite ?Hrf, ?Hrt).
    unfold chosen, update_policy, candidate, Spec.fromRate, Spec.toRate.
    unfold request_of. cbn [fromCurrency toCurrency fromAmount truthy_opt
                              ToString_opt ToNumber_opt default].
    rewrite Hrf, Hrt. cbn [default from_option id truthy_opt ToNumber_opt].
    rewrite Htf, Htt.
    destruct from, to, amount; done.
  - intros prev. by vm_compute.
Qed.

Lemma convert_candidate_witness :
  "A" ≠ "" ∧ "B" ≠ "" ∧ "4" ≠ ""
  ∧ rates_AB !! "A" = Some (num 2) ∧ truthy_number (num 2) = true
  ∧ rates_AB !! "B" = Some (num 4) ∧ truthy_number (num 4) = true
  ∧ convert (request_of "A" "B" "4") rates_AB None
    = Some (toFixed (div (mul (parseFloat "4") (num 2)) (num 4)) 6)
  ∧ fixed_range (div (mul (parseFloat "4") (num 2)) (num 4)) = true
  ∧ fixed_point_text 6 (toFixed (div (mul (parseFloat "4") (num 2)) (num 4)) 6).
Proof.
  assert (rates_AB !! "A" = Some (num 2)) as HA by (vm_compute; reflexivity).
  assert (rates_AB !! "B" = Some (num 4)) as HB by (vm_compute; reflexivity).
  assert (truthy_number (num 2) = true) as H2 by (vm_compute; reflexivity).
  assert (truthy_number (num 4) = true) as H4 by (vm_compute; reflexivity).
  assert (fixed_range (div (mul (parseFloat "4") (num 2)) (num 4)) = true)
    as Hr by (vm_compute; reflexivity).
  assert ("A" ≠ "") as HnA by discriminate.
  assert ("B" ≠ "") as HnB by discriminate.
  assert ("4" ≠ "") as Hn4 by discriminate.
  pose proof (proj1 convert_candidate rates_AB "A" "B" "4" None (num 2) (num 4)
                HnA HnB Hn4 HA H2 HB H4) as [H1 Hshape].
  repeat split; try assumption. exact (Hshape Hr).
Defined.

(** C7, as stated, fails: with valid rates, an amount that is not empty and
    does not parse replaces the result by the text NaN; so it does when the
    currencies name members the table inherits. *)
Lemma unparsable_amount_shows_NaN :
  parseFloat "abc" = NaN
  ∧ convert (request_of "A" "B" "abc") rates_AB (Some "1.000000") = Some "NaN"
  ∧ convert (request_of "constructor" "toString" "abc") rates_AB
      (Some "1.000000")
    = Some "NaN".
Proof. split_and!; by vm_compute. Qed.

(** C7, amended. For an amount that parses to NaN the update is withheld
    only by the raw conditions of the handler: the result becomes the text NaN
    when both currencies are non-empty Strings whose reads of the rate table
    are truthy (an own rate that is not 0 or NaN, or a member inherited from
    [Object.prototype]) and the amount is not empty, and stays the previous
    one otherwise, in particular for the empty amount. *)
Theorem unparsable_amount_policy (request : ConversionRequest)
  (rates : gmap string number) (previousResult : option string) :
  parseFloat (ToString_opt (fromAmount request)) = NaN ->
  convert request rates previousResult =
    (if chosen (fromCurrency request) && chosen (toCurrency request)
        && rate_truthy rates (fromCurrency request)
        && rate_truthy rates (toCurrency request)
        && truthy_opt truthy_string (fromAmount request)
     then Some "NaN"
     else previousResult)
  ∧ (fromAmount request = Some "" ->
     convert request rates previousResult = previousResult).
Proof.
  intros Hnan. rewrite convert_eq. split.
  - destruct (_ && _); [| done]. destruct (_ || _); [done |].
    unfold candidate. by rewrite Hnan, mul_NaN_l, div_NaN_l.
  - intros Hempty. rewrite Hempty. cbn [truthy_opt truthy_string].
    by rewrite andb_false_r.
Qed.

Lemma unparsable_amount_policy_witness :
  parseFloat (ToString_opt (fromAmount (request_of "A" "B" ""))) = NaN
  ∧ fromAmount (request_of "A" "B" "") = Some ""
  ∧ convert (request_of "A" "B" "") rates_AB (Some "3.000000")
    = Some "3.000000".
Proof.
  split; [by vm_compute |]. split; [reflexivity |].
  apply (unparsable_amount_policy (request_of "A" "B" "") rates_AB
           (Some "3.000000")); [by vm_compute | reflexivity].
Defined.

(** C10. [handleInputChange field value] leaves every property of the form
    state other than [field] and [toAmount] as it was; the edited property
    holds the new value; and when no conversion is made, [toAmount] (if it is
    not the edited property) keeps its previous value. *)
Theorem handleInputChange_frame (prices : gmap string number)
  (formData : gmap string (option string)) (field : string)
  (value : option string) :
  (∀ k : string, k ≠ field -> k ≠ "toAmount" ->
     after_input prices formData field value !! k = formData !! k)
  ∧ after_input prices formData field value !! field = Some value
  ∧ (conversion prices
       (prop (<[field := value]> formData) "fromCurrency")
       (prop (<[field := value]> formData) "toCurrency")
       (prop (<[field := value]> formData) "fromAmount") = None ->
     after_input prices formData field value = <[field := value]> formData
     ∧ (field ≠ "toAmount" ->
        after_input prices formData field value !! "toAmount"
          = formData !! "toAmount")).
Proof.
  rewrite after_input_eq. simpl.
  destruct (String.eqb field "fromAmount" || String.eqb field "fromCurrency"
            || String.eqb field "toCurrency") eqn:Hf.
  - pose proof (input_field_not_toAmount field Hf) as Hne.
    destruct (conversion _ _ _ _) as [result|].
    + split_and!; [| | done].
      * intros k Hk Hk'. by rewrite !lookup_insert_ne.
      * rewrite lookup_insert_ne by done. apply lookup_insert_eq.
    + split_and!.
      * intros k Hk _. by rewrite lookup_insert_ne.
      * apply lookup_insert_eq.
      * intros _. split; [done |]. intros _. by rewrite lookup_insert_ne.
  - split_and!.
    + intros k Hk _. by rewrite lookup_insert_ne.
    + apply lookup_insert_eq.
    + intros _. split; [done |]. intros Hne. by rewrite lookup_insert_ne.
Qed.

Lemma handleInputChange_frame_witness :
  "fromCurrency" ≠ "fromAmount" ∧ "fromCurrency" ≠ "toAmount"
  ∧ after_input rates_AB initial_formData "fromAmount" (Some "10")
      !! "fromCurrency"
    = initial_formData !! "fromCurrency"
  ∧ conversion rates_AB
      (prop (<["fromAmount" := Some "10"]> initial_formData) "fromCurrency")
      (prop (<["fromAmount" := Some "10"]> initial_formData) "toCurrency")
      (prop (<["fromAmount" := Some "10"]> initial_formData) "fromAmount")
    = None
  ∧ "fromAmount" ≠ "toAmount"
  ∧ after_input rates_AB initial_formData "fromAmount" (Some "10") !! "toAmount"
    = initial_formData !! "toAmount".
Proof.
  destruct (handleInputChange_frame rates_AB initial_formData "fromAmount"
              (Some "10")) as (Hframe & _ & Hkeep).
  split_and!; try discriminate.
  - apply Hframe; discriminate.
  - by vm_compute.
  - apply Hkeep; [by vm_compute | discriminate].
Defined.

End ConversionClaims.

(** ** Further properties of the duplicate filter and the price loop *)
Section CatalogMore.
Import JS SwapForm Spec.

Implicit Types (data l : list CurrenciesModel) (item : CurrenciesModel).

Lemma uniqueMap_of_has_keys data (k : string) :
  Map_has (uniqueMap_of data) k = true <-> k ∈ item_key <$> data.
Proof.
  rewrite uniqueMap_of_has, list_elem_of_fmap. split.
  - intros (y & Hy & <-). by exists y.
  - intros (y & -> & Hy). by exists y.
Qed.

Lemma uniqueMap_of_has_decide data (k : string) :
  Map_has (uniqueMap_of data) k = bool_decide (k ∈ item_key <$> data).
Proof.
  destruct (Map_has (uniqueMap_of data) k) eqn:H; symmetry.
  - apply bool_decide_eq_true. by apply uniqueMap_of_has_keys.
  - apply bool_decide_eq_false. intros Hin.
    apply uniqueMap_of_has_keys in Hin. congruence.
Qed.

Lemma removeDuplicates_NoDup_id data :
  NoDup (item_key <$> data) -> removeDuplicates data = data.
Proof.
  induction data as [|item data IH] using rev_ind; [done |].
  rewrite fmap_app. intros (Hnd & Hdisj & _)%NoDup_app.
  rewrite removeDuplicates_snoc.
  destruct (Map_has (uniqueMap_of data) (item_key item)) eqn:Hhas.
  - apply uniqueMap_of_has_keys in Hhas. destruct (Hdisj _ Hhas).
    simpl. apply elem_of_cons. by left.
  - by rewrite IH.
Qed.

Lemma removeDuplicates_keys_elem data (k : string) :
  k ∈ item_key <$> removeDuplicates data <-> k ∈ item_key <$> data.
Proof.
  rewrite <- (uniqueMap_of_has_keys data), Map_has_true, uniqueMap_of_keyed.
  by rewrite <- list_fmap_compose.
Qed.

Lemma removeDuplicates_app_eq l1 l2 :
  removeDuplicates (l1 ++ l2) =
    removeDuplicates l1 ++
    filter (fun x => item_key x ∉ item_key <$> l1) (removeDuplicates l2).
Proof.
  induction l2 as [|x l2 IH] using rev_ind.
  - change (removeDuplicates []) with (@nil CurrenciesModel).
    by rewrite filter_nil, !app_nil_r.
  - rewrite app_assoc, !removeDuplicates_snoc, !uniqueMap_of_has_decide.
    rewrite fmap_app.
    destruct (decide (item_key x ∈ item_key <$> l2)) as [Hin2 | Hnin2].
    + rewrite (bool_decide_eq_true_2 _ Hin2).
      rewrite bool_decide_eq_true_2; [done |].
      apply elem_of_app. by right.
    + rewrite (bool_decide_eq_false_2 _ Hnin2).
      rewrite filter_app, filter_cons, filter_nil.
      destruct (decide (item_key x ∈ item_key <$> l1)) as [Hin1 | Hnin1].
      * rewrite bool_decide_eq_true_2 by (apply elem_of_app; by left).
        rewrite decide_False by (by intros ?).
        by rewrite app_nil_r.
      * rewrite bool_decide_eq_false_2
          by (intros [?|?]%elem_of_app; by auto).
        rewrite decide_True by done. by rewrite IH, app_assoc.
Qed.

Lemma process_unpriced l :
  Forall (fun item => ¬ priced item) l -> process l = (∅, []).
Proof.
  induction l as [|item l IH] using rev_ind; [done |].
  intros [Hl Hitem]%Forall_app. rewrite process_snoc, fetchPrices_step_eq.
  rewrite Forall_singleton in Hitem.
  destruct (item_rate item) as [r|] eqn:Hr; [| by apply IH].
  exfalso. apply Hitem. unfold priced. rewrite Hr. by eexists.
Qed.

(** X1. Filtering twice is filtering once. *)
Theorem removeDuplicates_idempotent data :
  removeDuplicates (removeDuplicates data) = removeDuplicates data.
Proof. apply removeDuplicates_NoDup_id, removeDuplicates_NoDup. Qed.

(** X2. A list whose keys are pairwise distinct passes through unchanged. *)
Theorem removeDuplicates_distinct_keys data :
  NoDup (item_key <$> data) -> removeDuplicates data = data.
Proof. apply removeDuplicates_NoDup_id. Qed.

Lemma removeDuplicates_distinct_keys_witness :
  NoDup (item_key <$> [observation "A" "d1" 1; observation "A" "d2" 5])
  ∧ removeDuplicates [observation "A" "d1" 1; observation "A" "d2" 5]
    = [observation "A" "d1" 1; observation "A" "d2" 5].
Proof.
  assert (NoDup (item_key <$> [observation "A" "d1" 1; observation "A" "d2" 5]))
    as H.
  { apply NoDup_cons. split.
    - intros Hin%list_elem_of_singleton. discriminate.
    - apply NoDup_singleton. }
  split; [exact H |]. exact (removeDuplicates_distinct_keys _ H).
Defined.

(** X3. No key is lost: the retained observations carry exactly the keys of
    the input. *)
Theorem removeDuplicates_keeps_every_key data :
  list_to_set (item_key <$> removeDuplicates data) =@{gset string}
    list_to_set (item_key <$> data).
Proof.
  apply set_eq. intros k. rewrite !elem_of_list_to_set.
  apply removeDuplicates_keys_elem.
Qed.

(** X4. Filtering a concatenation: the first part is filtered on its own, and
    of the second part what is retained on its own and has a key the first
    part does not have. *)
Theorem removeDuplicates_app l1 l2 :
  removeDuplicates (l1 ++ l2) =
    removeDuplicates l1 ++
    filter (fun x => item_key x ∉ item_key <$> l1) (removeDuplicates l2).
Proof. apply removeDuplicates_app_eq. Qed.

(** X5. The rate table and the display list come out empty exactly when no
    retained observation has a present, truthy price (in particular for the
    empty list). *)
Theorem fetchPrices_empty_iff data :
  fetchPrices data = (∅, []) <->
  Forall (fun item => ¬ priced item) (removeDuplicates data).
Proof.
  rewrite fetchPrices_process. split.
  - intros H. apply (f_equal snd) in H. rewrite process_currencies in H.
    simpl in H. apply fmap_nil_inv in H.
    apply Forall_forall. intros item Hin Hp.
    assert (item ∈ filter priced (removeDuplicates data)) as Hf
      by (by apply list_elem_of_filter).
    rewrite H in Hf. by apply elem_of_nil in Hf.
  - apply process_unpriced.
Qed.

Lemma fetchPrices_empty_iff_witness :
  Forall (fun item => ¬ priced item)
    (removeDuplicates [observation "A" "d1" 0; observation "A" "d1" 7])
  ∧ fetchPrices [observation "A" "d1" 0; observation "A" "d1" 7] = (∅, []).
Proof.
  assert (Forall (fun item => ¬ priced item)
            (removeDuplicates [observation "A" "d1" 0; observation "A" "d1" 7]))
    as H.
  { change (removeDuplicates _) with [observation "A" "d1" 0].
    apply Forall_singleton. intros [r Hr]. discriminate. }
  split; [exact H |].
  exact (proj2 (fetchPrices_empty_iff _) H).
Defined.

(** X6. Every key of the rate table is the currency of an input observation,
    and the display list is no longer than the input. *)
Theorem fetchPrices_within_input data :
  dom (fetchPrices data).1 ⊆@{gset string} list_to_set (currency <$> data)
  ∧ length (fetchPrices data).2 <= length data.
Proof.
  split.
  - intros c Hc. apply elem_of_dom in Hc as [r Hr].
    apply fetchPrices_rate_Some in Hr as [_ Hr].
    apply last_omap_Some in Hr as (item & Hin & _).
    apply list_elem_of_filter in Hin as [Hcur Hin].
    apply elem_of_list_to_set, list_elem_of_fmap. exists item. split; [done |].
    eapply elem_of_sublist; [done | apply removeDuplicates_sublist].
  - rewrite fetchPrices_process, process_currencies, length_fmap.
    etrans; [apply length_filter |].
    apply sublist_length, removeDuplicates_sublist.
Qed.

(** X7. Reading one more observation whose key is new: with a present, truthy
    price it sets the rate of its currency (replacing the one there; nothing
    is stored for the currency [__proto__]) and adds one display entry at the
    end; without, it changes nothing. *)
Theorem fetchPrices_snoc_fresh data item :
  item_key item ∉ item_key <$> data ->
  fetchPrices (data ++ [item]) =
    match item_rate item with
    | Some r =>
        (if decide (currency item = "__proto__") then (fetchPrices data).1
         else <[currency item := r]> (fetchPrices data).1,
         (fetchPrices data).2 ++ [meta_of item])
    | None => fetchPrices data
    end.
Proof.
  intros Hfresh. rewrite !fetchPrices_process, removeDuplicates_snoc.
  rewrite uniqueMap_of_has_decide, bool_decide_eq_false_2 by done.
  rewrite process_snoc, fetchPrices_step_eq.
  destruct (item_rate item) as [r|]; [| done]. f_equal.
  destruct (decide (currency item = "__proto__")) as [-> | Hc].
  - apply Object_assign_proto, process_no_proto.
  - by apply Object_assign_insert.
Qed.

Lemma fetchPrices_snoc_fresh_witness :
  (item_key (observation "__proto__" "d1" 2)
     ∉ item_key <$> [observation "A" "d1" 1])
  ∧ fetchPrices ([observation "A" "d1" 1] ++ [observation "__proto__" "d1" 2])
    = (<["A" := num 1]> ∅,
       [meta_of (observation "A" "d1" 1);
        meta_of (observation "__proto__" "d1" 2)])
  ∧ (item_key (observation "B" "d1" 2) ∉ item_key <$> [observation "A" "d1" 1])
  ∧ fetchPrices ([observation "A" "d1" 1] ++ [observation "B" "d1" 2]) =
      match item_rate (observation "B" "d1" 2) with
      | Some r =>
          (if decide (currency (observation "B" "d1" 2) = "__proto__")
           then (fetchPrices [observation "A" "d1" 1]).1
           else <[currency (observation "B" "d1" 2) := r]>
                  (fetchPrices [observation "A" "d1" 1]).1,
           (fetchPrices [observation "A" "d1" 1]).2
             ++ [meta_of (observation "B" "d1" 2)])
      | None => fetchPrices [observation "A" "d1" 1]
      end.
Proof.
  assert (item_key (observation "__proto__" "d1" 2)
            ∉ item_key <$> [observation "A" "d1" 1]) as Hp.
  { intros Hin%list_elem_of_singleton. discriminate. }
  assert (item_key (observation "B" "d1" 2)
            ∉ item_key <$> [observation "A" "d1" 1]) as H.
  { intros Hin%list_elem_of_singleton. discriminate. }
  split; [exact Hp |]. split.
  - rewrite (fetchPrices_snoc_fresh _ _ Hp). by vm_compute.
  - split; [exact H |]. exact (fetchPrices_snoc_fresh _ _ H).
Defined.

End CatalogMore.

(** ** Further properties of the input handler *)
Section HandlerMore.
Import JS SwapForm Spec.

Implicit Types (rates : gmap string number).
Implicit Types (st : gmap string (option string)).

Lemma conversion_no_rates (fc tc amt : option string) :
  conversion ∅ fc tc amt =
    if inherited_read ∅ fc && inherited_read ∅ tc
       && truthy_opt truthy_string amt
    then Some "NaN"
    else None.
Proof.
  unfold conversion, inherited_read, Object_read.
  destruct fc as [fc|], tc as [tc|]; try done.
  2: by rewrite lookup_empty; destruct (inherited fc).
  rewrite !lookup_empty.
  destruct (inherited fc) eqn:Hfc.
  - rewrite (inherited_truthy fc Hfc). cbn [andb truthy ToNumber].
    destruct (inherited tc) eqn:Htc.
    + rewrite (inherited_truthy tc Htc). cbn [andb truthy ToNumber].
      destruct (truthy_opt truthy_string amt); [| done].
      by rewrite mul_NaN_r, div_NaN_l, toFixed_NaN.
    + destruct (truthy_string tc); cbn [andb truthy]; done.
  - destruct (truthy_string fc && truthy_string tc); cbn [andb truthy]; done.
Qed.

Lemma after_input_no_rates st (field : string) (value : option string) :
  after_input ∅ st field value =
    if input_field field
       && inherited_read ∅ (prop (<[field := value]> st) "fromCurrency")
       && inherited_read ∅ (prop (<[field := value]> st) "toCurrency")
       && truthy_opt truthy_string (prop (<[field := value]> st) "fromAmount")
    then <["toAmount" := Some "NaN"]> (<[field := value]> st)
    else <[field := value]> st.
Proof.
  rewrite after_input_eq. cbv zeta. rewrite conversion_no_rates.
  unfold input_field. destruct (_ || _); [| done].
  rewrite <- !andb_assoc. cbn [andb]. rewrite !andb_assoc.
  by destruct (_ && _).
Qed.

Lemma conversion_rates_agree rates rates' (fc tc : string) (amt : option string) :
  rates !! fc = rates' !! fc -> rates !! tc = rates' !! tc ->
  conversion rates (Some fc) (Some tc) amt =
    conversion rates' (Some fc) (Some tc) amt.
Proof. unfold conversion, Object_read. by intros -> ->. Qed.

Lemma after_input_again rates st (field : string) (value : option string) :
  after_input rates (after_input rates st field value) field value =
    after_input rates st field value.
Proof.
  rewrite !after_input_eq. simpl.
  destruct (String.eqb field "fromAmount" || String.eqb field "fromCurrency"
            || String.eqb field "toCurrency") eqn:Hf.
  - pose proof (input_field_not_toAmount field Hf) as Hne.
    assert (∀ (r : option string) (k : string), k ≠ "toAmount" ->
              prop (<[field := value]>
                      (<["toAmount" := r]> (<[field := value]> st))) k
              = prop (<[field := value]> st) k) as Hprop.
    { intros r k Hk. unfold prop.
      destruct (decide (field = k)) as [-> | Hfk].
      - by rewrite !lookup_insert_eq.
      - by rewrite lookup_insert_ne, lookup_insert_ne by done. }
    destruct (conversion rates (prop (<[field := value]> st) "fromCurrency")
                (prop (<[field := value]> st) "toCurrency")
                (prop (<[field := value]> st) "fromAmount"))
      as [result|] eqn:Hconv.
    + rewrite !Hprop by done. rewrite Hconv.
      apply map_eq. intros k.
      destruct (decide (k = "toAmount")) as [-> | Hk].
      * by rewrite !lookup_insert_eq.
      * rewrite (lookup_insert_ne _ "toAmount") by done.
        destruct (decide (field = k)) as [-> | Hfk].
        -- rewrite lookup_insert_eq.
           rewrite (lookup_insert_ne _ "toAmount") by done.
           by rewrite lookup_insert_eq.
        -- rewrite lookup_insert_ne by done.
           by rewrite (lookup_insert_ne _ "toAmount") by done.
    + rewrite insert_insert_eq, Hconv. done.
  - by rewrite insert_insert_eq.
Qed.

Lemma conversion_incomplete rates (fc tc amt : option string) :
  fc = None ∨ tc = None ∨ amt = Some "" ∨ amt = None ->
  conversion rates fc tc amt = None.
Proof.
  unfold conversion. destruct fc as [fc|], tc as [tc|]; try done.
  intros [? | [? | [-> | ->]]]; try done;
    destruct (truthy_string fc && truthy_string tc); try done;
    simpl; by rewrite andb_false_r.
Qed.

Lemma after_input_incomplete rates (st : gmap string (option string))
  (field : string) (value : option string) :
  prop (<[field := value]> st) "fromCurrency" = None
  ∨ prop (<[field := value]> st) "toCurrency" = None
  ∨ prop (<[field := value]> st) "fromAmount" = Some ""
  ∨ prop (<[field := value]> st) "fromAmount" = None ->
  after_input rates st field value = <[field := value]> st.
Proof.
  intros H. rewrite after_input_eq. simpl.
  rewrite (conversion_incomplete _ _ _ _ H). by destruct (_ || _).
Qed.

Lemma after_input_complete rates (st : gmap string (option string))
  (field : string) (value : option string) (fc tc amt : string)
  (prev : option string) :
  String.eqb field "fromAmount" || String.eqb field "fromCurrency"
    || String.eqb field "toCurrency" = true ->
  prop (<[field := value]> st) "fromCurrency" = Some fc ->
  prop (<[field := value]> st) "toCurrency" = Some tc ->
  prop (<[field := value]> st) "fromAmount" = Some amt ->
  st !! "toAmount" = Some prev ->
  after_input rates st field value =
    <["toAmount" := convert (request_of fc tc amt) rates prev]>
      (<[field := value]> st).
Proof.
  intros Hf Hfc Htc Hamt Hprev. rewrite after_input_eq. cbv zeta.
  rewrite Hf, Hfc, Htc, Hamt. unfold convert, request_of.
  cbn [fromCurrency toCurrency fromAmount].
  destruct (conversion rates (Some fc) (Some tc) (Some amt)); [done |].
  symmetry. apply insert_id.
  rewrite lookup_insert_ne; [done |].
  by apply input_field_not_toAmount.
Qed.

Ltac form_lookups :=
  unfold prop, initial_formData;
  repeat first
    [ rewrite lookup_insert_eq
    | rewrite lookup_insert_ne by discriminate ];
  try done.

Ltac same_form :=
  apply map_eq; intros ?; rewrite !lookup_insert;
  repeat case_decide; congruence.

Lemma edits_any_order rates (fc tc amt : string) calls :
  calls ∈ permutations [("fromCurrency", Some fc); ("toCurrency", Some tc);
                         ("fromAmount", Some amt)] ->
  edits rates initial_formData calls =
    <["toAmount" := convert (request_of fc tc amt) rates (Some "")]>
      (<["fromAmount" := Some amt]>
         (<["toCurrency" := Some tc]>
            (<["fromCurrency" := Some fc]> initial_formData))).
Proof.
  intros H. cbn in H.
  repeat (apply elem_of_cons in H as [-> | H]); [.. | by apply elem_of_nil in H];
    unfold edits; simpl;
    rewrite (after_input_incomplete rates initial_formData)
      by (form_lookups; simpl; auto 6);
    match goal with
    | |- context [after_input rates (<[?f := ?v]> initial_formData) ?g ?w] =>
        rewrite (after_input_incomplete rates (<[f := v]> initial_formData) g w)
          by (form_lookups; simpl; auto 6)
    end;
    (rewrite (after_input_complete _ _ _ _ fc tc amt (Some ""))
       by form_lookups);
    same_form.
Qed.

Lemma digit_head (c : ascii) :
  is_digit c = true ->
  is_whitespace c = false ∧ c ≠ "+"%char ∧ c ≠ "-"%char ∧ c ≠ "I"%char.
Proof.
  destruct c as [[] [] [] [] [] [] [] []]; try discriminate; done.
Qed.

Lemma string_app_nil_r (s : string) : s +:+ "" = s.
Proof.
  induction s as [|c s IH]; [done |]. by rewrite string_app_cons, IH.
Qed.

Lemma span_digits_app (s t : string) :
  all_digits s = true -> plain_tail t -> span_digits (s +:+ t) = (s, t).
Proof.
  intros Hs Ht. induction s as [|c s IH].
  - rewrite string_app_nil. destruct t as [|c t]; [done |].
    simpl. destruct Ht as [-> _]. done.
  - rewrite string_app_cons. simpl in *.
    apply andb_true_iff in Hs as [Hc Hs]. by rewrite Hc, IH.
Qed.

Lemma split_sign_digit (c : ascii) (r : string) :
  is_digit c = true -> split_sign (String c r) = (false, String c r).
Proof.
  destruct c as [[] [] [] [] [] [] [] []]; try discriminate; done.
Qed.

Lemma prefix_Infinity_digit (c : ascii) (r : string) :
  is_digit c = true -> String.prefix "Infinity" (String c r) = false.
Proof.
  destruct c as [[] [] [] [] [] [] [] []]; try discriminate; done.
Qed.

Lemma exponent_part_plain (t : string) : plain_tail t -> exponent_part t = 0%Z.
Proof.
  destruct t as [|c t]; [done |]. intros (_ & _ & He & HE). simpl.
  destruct (Ascii.eqb_spec c "e"); [done |].
  destruct (Ascii.eqb_spec c "E"); done.
Qed.

Lemma StrDecimalLiteral_digits (s t : string) :
  s ≠ "" -> all_digits s = true -> plain_tail t ->
  StrDecimalLiteral (s +:+ t) = Some (of_decimal false (digits_value s) 0).
Proof.
  intros Hne Hs Ht. destruct s as [|c s]; [done |].
  pose proof Hs as Hs'. simpl in Hs'. apply andb_true_iff in Hs' as [Hc _].
  unfold StrDecimalLiteral. rewrite string_app_cons.
  rewrite (split_sign_digit c _ Hc), (prefix_Infinity_digit c _ Hc).
  rewrite <- string_app_cons, (span_digits_app _ _ Hs Ht).
  assert (match t with
          | String "."%char r => span_digits r
          | _ => ("", t)
          end = ("", t)) as ->.
  { destruct t as [|c' t]; [done |]. destruct Ht as (_ & Hp & _).
    destruct c' as [[] [] [] [] [] [] [] []]; done. }
  rewrite string_app_nil_r, (exponent_part_plain t Ht). done.
Qed.

Lemma parseFloat_digits_tail (s t : string) :
  s ≠ "" -> all_digits s = true -> plain_tail t ->
  parseFloat (s +:+ t) = parseFloat s.
Proof.
  intros Hne Hs Ht.
  assert (∀ u, plain_tail u -> parseFloat (s +:+ u)
                               = of_decimal false (digits_value s) 0) as H.
  { intros u Hu. unfold parseFloat.
    destruct s as [|c s]; [done |].
    pose proof Hs as Hs'. simpl in Hs'. apply andb_true_iff in Hs' as [Hc _].
    rewrite string_app_cons. simpl.
    rewrite (proj1 (digit_head c Hc)). rewrite <- string_app_cons.
    by rewrite StrDecimalLiteral_digits. }
  rewrite (H t Ht). rewrite <- (string_app_nil_r s) at 2. by rewrite (H "").
Qed.

(** X8. Repeating an edit changes nothing: the handler applied twice with the
    same field and value leaves the state of the first call. *)
Theorem handleInputChange_idempotent rates st (field : string)
  (value : option string) :
  after_input rates (after_input rates st field value) field value =
    after_input rates st field value.
Proof. apply after_input_again. Qed.

(** X9. When the fetch fails (the request rejects, the response is not ok, or
    its body does not parse), the component leaves the loading state with an
    empty rate table and no currencies.  From then on an edit only stores the
    edited value, unless the edited form names members of [Object.prototype]
    in both currency fields and has a non-empty amount: then, on an edit of
    one of the three inputs, [toAmount] becomes the text NaN.  With a currency
    field that is empty or holds any other name, no edit converts. *)
Theorem failed_fetch_no_conversion (outcome : FetchOutcome) :
  (∀ data, outcome ≠ FetchResponse true (Some data)) ->
  fetchPrices_effect outcome initial_state =
    {| loading := false; prices := ∅; currencies := [];
       formData := initial_formData |}
  ∧ (∀ st (field : string) (value : option string),
       after_input (prices (fetchPrices_effect outcome initial_state))
         st field value =
         if input_field field
            && inherited_read ∅ (prop (<[field := value]> st) "fromCurrency")
            && inherited_read ∅ (prop (<[field := value]> st) "toCurrency")
            && truthy_opt truthy_string
                 (prop (<[field := value]> st) "fromAmount")
         then <["toAmount" := Some "NaN"]> (<[field := value]> st)
         else <[field := value]> st)
  ∧ (∀ st (field : string) (value : option string),
       inherited_read ∅ (prop (<[field := value]> st) "fromCurrency") = false
       ∨ inherited_read ∅ (prop (<[field := value]> st) "toCurrency") = false ->
       after_input (prices (fetchPrices_effect outcome initial_state))
         st field value = <[field := value]> st).
Proof.
  intros Hfail.
  assert (fetchPrices_effect outcome initial_state =
            {| loading := false; prices := ∅; currencies := [];
               formData := initial_formData |}) as Heq.
  { destruct outcome as [|[] [data|]]; try done. by destruct (Hfail data). }
  split; [done |]. rewrite Heq. cbn [prices]. split.
  - apply after_input_no_rates.
  - intros st field value H. rewrite after_input_no_rates.
    destruct H as [-> | ->]; by rewrite ?andb_false_r.
Qed.

Lemma failed_fetch_no_conversion_witness :
  (∀ data, FetchResponse false None ≠ FetchResponse true (Some data))
  ∧ (inherited_read ∅
       (prop (<["fromAmount" := Some "10"]> initial_formData) "fromCurrency")
     = false
     ∨ inherited_read ∅
         (prop (<["fromAmount" := Some "10"]> initial_formData) "toCurrency")
       = false)
  ∧ after_input
      (prices (fetchPrices_effect (FetchResponse false None) initial_state))
      initial_formData "fromAmount" (Some "10")
    = <["fromAmount" := Some "10"]> initial_formData.
Proof.
  assert (∀ data, FetchResponse false None ≠ FetchResponse true (Some data))
    as H by (intros data; discriminate).
  assert (inherited_read ∅
            (prop (<["fromAmount" := Some "10"]> initial_formData)
               "fromCurrency") = false
          ∨ inherited_read ∅
              (prop (<["fromAmount" := Some "10"]> initial_formData)
                 "toCurrency") = false) as Hc
    by (left; vm_compute; reflexivity).
  split; [exact H |]. split; [exact Hc |].
  exact (proj2 (proj2 (failed_fetch_no_conversion _ H)) _ _ _ Hc).
Defined.

(** X10. The conversion reads the rate table at the two chosen currencies
    only: tables that agree there give the same result. *)
Theorem convert_reads_two_rates (request : ConversionRequest)
  rates rates' (previousResult : option string) :
  (∀ c, fromCurrency request = Some c -> rates !! c = rates' !! c) ->
  (∀ c, toCurrency request = Some c -> rates !! c = rates' !! c) ->
  convert request rates previousResult = convert request rates' previousResult.
Proof.
  intros Hf Ht. unfold convert.
  destruct request as [[fc|] [tc|] amt];
    cbn [fromCurrency toCurrency fromAmount] in *; try done.
  by rewrite (conversion_rates_agree rates rates' fc tc amt (Hf _ eq_refl)
                (Ht _ eq_refl)).
Qed.

Lemma convert_reads_two_rates_witness :
  (∀ c, fromCurrency (request_of "A" "B" "10") = Some c ->
        rates_AB !! c = (<["C" := num 7]> rates_AB) !! c)
  ∧ (∀ c, toCurrency (request_of "A" "B" "10") = Some c ->
          rates_AB !! c = (<["C" := num 7]> rates_AB) !! c)
  ∧ convert (request_of "A" "B" "10") rates_AB None
    = convert (request_of "A" "B" "10") (<["C" := num 7]> rates_AB) None.
Proof.
  assert (∀ c, fromCurrency (request_of "A" "B" "10") = Some c ->
               rates_AB !! c = (<["C" := num 7]> rates_AB) !! c) as H1.
  { intros c [= <-]. by rewrite lookup_insert_ne. }
  assert (∀ c, toCurrency (request_of "A" "B" "10") = Some c ->
               rates_AB !! c = (<["C" := num 7]> rates_AB) !! c) as H2.
  { intros c [= <-]. by rewrite lookup_insert_ne. }
  split; [exact H1 |]. split; [exact H2 |].
  exact (convert_reads_two_rates _ _ _ None H1 H2).
Defined.

(** X11. Text after a run of digits that cannot continue a number (12abc) is
    ignored: the conversion is the one for the digits alone. *)
Theorem convert_ignores_trailing_text (from to digits tail : string)
  rates (previousResult : option string) :
  digits ≠ "" -> all_digits digits = true -> plain_tail tail ->
  convert (request_of from to (digits +:+ tail)) rates previousResult =
    convert (request_of from to digits) rates previousResult.
Proof.
  intros Hne Hd Ht. rewrite !convert_eq.
  unfold request_of, update_policy, candidate, Spec.fromRate, Spec.toRate.
  cbn [fromCurrency toCurrency fromAmount ToString_opt truthy_opt].
  rewrite (parseFloat_digits_tail _ _ Hne Hd Ht).
  destruct digits as [|c digits]; [done |]. by rewrite string_app_cons.
Qed.

Lemma convert_ignores_trailing_text_witness :
  "12" ≠ "" ∧ all_digits "12" = true ∧ plain_tail "abc"
  ∧ convert (request_of "A" "B" ("12" +:+ "abc")) rates_AB None
    = convert (request_of "A" "B" "12") rates_AB None.
Proof.
  assert ("12" ≠ "") as H1 by discriminate.
  assert (all_digits "12" = true) as H2 by reflexivity.
  assert (plain_tail "abc") as H3 by (repeat split; discriminate).
  split; [exact H1 |]. split; [exact H2 |]. split; [exact H3 |].
  exact (convert_ignores_trailing_text "A" "B" "12" "abc" rates_AB None H1 H2 H3).
Defined.

(** X12. Filling the empty form in any order gives the same state: whichever
    of the two currencies and the amount is entered last, only that last edit
    can convert, and [toAmount] ends as the conversion of the three values
    from the initial empty text. *)
Theorem form_fill_order_irrelevant rates (fc tc amt : string)
  (calls : list (string * option string)) :
  calls ∈ permutations [("fromCurrency", Some fc); ("toCurrency", Some tc);
                         ("fromAmount", Some amt)] ->
  edits rates initial_formData calls =
    <["toAmount" := convert (request_of fc tc amt) rates (Some "")]>
      (<["fromAmount" := Some amt]>
         (<["toCurrency" := Some tc]>
            (<["fromCurrency" := Some fc]> initial_formData))).
Proof. apply edits_any_order. Qed.

Lemma form_fill_order_irrelevant_witness :
  [("fromAmount", Some "10"); ("toCurrency", Some "B");
   ("fromCurrency", Some "A")]
    ∈ permutations [("fromCurrency", Some "A"); ("toCurrency", Some "B");
                     ("fromAmount", Some "10")]
  ∧ edits rates_AB initial_formData
      [("fromAmount", Some "10"); ("toCurrency", Some "B");
       ("fromCurrency", Some "A")] !! "toAmount"
    = Some (Some "5.000000").
Proof.
  assert ([("fromAmount", Some "10"); ("toCurrency", Some "B");
           ("fromCurrency", Some "A")]
            ∈ permutations [("fromCurrency", Some "A"); ("toCurrency", Some "B");
                             ("fromAmount", Some "10")]) as H.
  { cbn. repeat first [ by apply list_elem_of_here | apply list_elem_of_further ]. }
  split; [exact H |].
  rewrite (form_fill_order_irrelevant rates_AB "A" "B" "10" _ H).
  rewrite lookup_insert_eq. by vm_compute.
Defined.

End HandlerMore.

(** ** The wallet page *)
Section WalletRows.
Import JS WalletPage.

Implicit Types (b lhs rhs : WalletBalance) (l balances : list WalletBalance).

Lemma priority_rank_cases (s : string) :
  priority_rank s ∈ [100; 50; 30; 20; -99]%Z.
Proof.
  unfold priority_rank, SwapForm.Object_get. cbn -[String.eqb].
  repeat match goal with
         | |- context [String.eqb ?a s] =>
             destruct (String.eqb a s); [simpl; set_solver |]
         end.
  simpl. set_solver.
Qed.

Lemma getPriority_rank (s : string) :
  s ∈ SwapForm.Object_keys BLOCKCHAIN_PRIORITIES ->
  getPriority s = VNumber (Spec.num (priority_rank s)).
Proof.
  intros Hin. cbn -[Spec.num] in Hin.
  repeat (apply elem_of_cons in Hin as [-> | Hin]);
    [by vm_compute .. | by apply elem_of_nil in Hin].
Qed.

(** A name the table does not hold reads as the fallback or, when it is
    inherited, as an object. *)
Lemma getPriority_other (s : string) :
  s ∉ SwapForm.Object_keys BLOCKCHAIN_PRIORITIES ->
  priority_rank s = (-99)%Z
  ∧ (getPriority s = VNumber (Spec.num (-99)) ∨ getPriority s = VObject s).
Proof.
  intros Hnot.
  unfold getPriority, priority_rank, SwapForm.Object_get,
    SwapForm.Object_keys, BLOCKCHAIN_PRIORITIES in *.
  cbn -[String.eqb Spec.num inherited] in *.
  repeat match goal with
         | |- context [String.eqb ?a s] =>
             destruct (String.eqb_spec a s) as [<- | ?];
               [destruct Hnot; set_solver |]
         end.
  split; [done |]. destruct (inherited s); auto.
Qed.

Lemma gt_sub_rank (p q : Z) :
  p ∈ [100; 50; 30; 20; -99]%Z -> q ∈ [100; 50; 30; 20; -99]%Z ->
  gt (sub (Spec.num q) (Spec.num p)) zero = (p <? q)%Z
  ∧ gt (Spec.num q) (Spec.num p) = (p <? q)%Z.
Proof.
  intros Hp Hq.
  repeat (apply elem_of_cons in Hp as [-> | Hp]);
    [.. | by apply elem_of_nil in Hp];
    repeat (apply elem_of_cons in Hq as [-> | Hq]);
    try (by apply elem_of_nil in Hq); by vm_compute.
Qed.

Lemma by_priority_gt lhs rhs :
  blockchain lhs ∈ SwapForm.Object_keys BLOCKCHAIN_PRIORITIES ->
  blockchain rhs ∈ SwapForm.Object_keys BLOCKCHAIN_PRIORITIES ->
  gt (by_priority lhs rhs) zero
    = (priority_rank (blockchain lhs) <? priority_rank (blockchain rhs))%Z.
Proof.
  intros Hl Hr. unfold by_priority.
  rewrite (getPriority_rank _ Hl), (getPriority_rank _ Hr). cbn [ToNumber].
  apply gt_sub_rank; apply priority_rank_cases.
Qed.

Lemma getPriority_gt (s t : string) :
  s ∈ SwapForm.Object_keys BLOCKCHAIN_PRIORITIES ->
  t ∈ SwapForm.Object_keys BLOCKCHAIN_PRIORITIES ->
  gt (getPriority t) (getPriority s) = (priority_rank s <? priority_rank t)%Z.
Proof.
  intros Hs Ht. rewrite (getPriority_rank _ Hs), (getPriority_rank _ Ht).
  cbn [ToNumber]. apply gt_sub_rank; apply priority_rank_cases.
Qed.

Lemma priority_rank_known (s : string) :
  (-99 <? priority_rank s)%Z = true <->
  s ∈ SwapForm.Object_keys BLOCKCHAIN_PRIORITIES.
Proof.
  unfold priority_rank, SwapForm.Object_get, SwapForm.Object_keys,
    BLOCKCHAIN_PRIORITIES. cbn -[String.eqb Spec.num].
  repeat match goal with
         | |- context [String.eqb ?a s] =>
             destruct (String.eqb_spec a s) as [<- | ?];
               [simpl; split; [set_solver | done] |]
         end.
  simpl. split; [intros H; discriminate H |].
  intros Hin. repeat (apply elem_of_cons in Hin as [-> | Hin]); try done.
  by apply elem_of_nil in Hin.
Qed.

(** *** Insertion and the stable sort, for a comparison by rank *)
Section SortByRank.
Context {A : Type} (comparefn : A -> A -> number) (rank : A -> Z).
Context (P : A -> Prop).
Hypothesis comparefn_rank :
  ∀ x y, P x -> P y -> gt (comparefn x y) zero = (rank x <? rank y)%Z.

Lemma sort_insert_perm (x : A) (l : list A) : sort_insert comparefn x l ≡ₚ x :: l.
Proof.
  induction l as [|y l IH]; simpl; [done |].
  destruct (gt (comparefn x y) zero); [| done].
  rewrite IH. apply Permutation_swap.
Qed.

Lemma Array_sort_perm (l : list A) : Array_sort comparefn l ≡ₚ l.
Proof.
  induction l as [|x l IH]; simpl; [done |].
  rewrite sort_insert_perm. by f_equiv.
Qed.

Lemma Array_sort_Forall (l : list A) : Forall P l -> Forall P (Array_sort comparefn l).
Proof.
  rewrite !Forall_forall. intros H x Hx. apply H.
  by rewrite Array_sort_perm in Hx.
Qed.

Lemma sort_insert_sorted (x : A) (l : list A) :
  P x -> Forall P l ->
  StronglySorted (fun u v => (rank v <= rank u)%Z) l ->
  StronglySorted (fun u v => (rank v <= rank u)%Z) (sort_insert comparefn x l).
Proof.
  intros Hx. induction l as [|y l IH]; simpl; intros HP Hs.
  - repeat constructor.
  - apply Forall_cons in HP as [HPy HP].
    rewrite comparefn_rank by done. apply StronglySorted_inv in Hs as [Hl Hy].
    destruct (Z.ltb_spec (rank x) (rank y)) as [Hlt | Hge].
    + constructor; [by apply IH |].
      apply Forall_forall. intros z Hz.
      rewrite sort_insert_perm in Hz.
      apply elem_of_cons in Hz as [-> | Hz]; [lia |].
      rewrite Forall_forall in Hy. by apply Hy.
    + constructor; [by constructor |].
      constructor; [done |]. eapply Forall_impl; [exact Hy |].
      simpl. intros z Hz. lia.
Qed.

Lemma Array_sort_sorted (l : list A) :
  Forall P l ->
  StronglySorted (fun u v => (rank v <= rank u)%Z) (Array_sort comparefn l).
Proof.
  induction l as [|x l IH]; simpl; [constructor |].
  intros [Hx Hl]%Forall_cons.
  apply sort_insert_sorted; [done | by apply Array_sort_Forall | by apply IH].
Qed.

Lemma sort_insert_filter_rank (r : Z) (x : A) (l : list A) :
  P x -> Forall P l ->
  filter (fun u => rank u = r) (sort_insert comparefn x l)
  = filter (fun u => rank u = r) (x :: l).
Proof.
  intros Hx. induction l as [|y l IH]; simpl; [done |].
  intros [HPy HP]%Forall_cons. rewrite comparefn_rank by done.
  destruct (Z.ltb_spec (rank x) (rank y)) as [Hlt | Hge]; [| done].
  rewrite filter_cons, IH, !filter_cons by done.
  destruct (decide (rank y = r)), (decide (rank x = r)); try done. lia.
Qed.

Lemma Array_sort_filter_rank (r : Z) (l : list A) :
  Forall P l ->
  filter (fun u => rank u = r) (Array_sort comparefn l)
  = filter (fun u => rank u = r) l.
Proof.
  induction l as [|x l IH]; simpl; [done |].
  intros [Hx Hl]%Forall_cons.
  rewrite sort_insert_filter_rank by (done || by apply Array_sort_Forall).
  by rewrite !filter_cons, IH.
Qed.

End SortByRank.

Lemma filter_ext_elem {A} (P Q : A -> Prop) `{!∀ x, Decision (P x)}
  `{!∀ x, Decision (Q x)} (l : list A) :
  (∀ x, x ∈ l -> P x <-> Q x) -> filter P l = filter Q l.
Proof.
  induction l as [|x l IH]; [done |]. intros Hext.
  rewrite !filter_cons.
  rewrite IH by (intros y Hy; apply Hext; by apply elem_of_cons; right).
  pose proof (Hext x (list_elem_of_here x l)) as Hx.
  destruct (decide (P x)), (decide (Q x)); tauto.
Qed.

Lemma num_rank_inj (p q : Z) :
  p ∈ [100; 50; 30; 20; -99]%Z -> q ∈ [100; 50; 30; 20; -99]%Z ->
  Spec.num p = Spec.num q -> p = q.
Proof.
  intros Hp Hq.
  repeat (apply elem_of_cons in Hp as [-> | Hp]);
    [.. | by apply elem_of_nil in Hp];
    repeat (apply elem_of_cons in Hq as [-> | Hq]);
    try (by apply elem_of_nil in Hq); try done; by vm_compute.
Qed.

Lemma getPriority_eq_rank (s t : string) :
  s ∈ SwapForm.Object_keys BLOCKCHAIN_PRIORITIES ->
  getPriority s = getPriority t <-> priority_rank s = priority_rank t.
Proof.
  intros Hs. rewrite (getPriority_rank s Hs).
  destruct (decide (t ∈ SwapForm.Object_keys BLOCKCHAIN_PRIORITIES))
    as [Ht | Ht].
  - rewrite (getPriority_rank t Ht). split; [| by intros ->].
    intros Heq. apply (f_equal ToNumber) in Heq. cbn [ToNumber] in Heq.
    revert Heq. apply num_rank_inj; apply priority_rank_cases.
  - destruct (getPriority_other t Ht) as [Hrank Hread].
    apply priority_rank_known in Hs. rewrite Hrank. split.
    + destruct Hread as [-> | ->]; [| done].
      intros Heq. apply (f_equal ToNumber) in Heq. cbn [ToNumber] in Heq.
      revert Heq.
      apply num_rank_inj; [apply priority_rank_cases | set_solver].
    + intros Heq. rewrite Heq in Hs. done.
Qed.

Lemma shown_priority (s : string) :
  gt (getPriority s) (Spec.num (-99)) = true <->
  s ∈ SwapForm.Object_keys BLOCKCHAIN_PRIORITIES.
Proof.
  destruct (decide (s ∈ SwapForm.Object_keys BLOCKCHAIN_PRIORITIES))
    as [Hs | Hs].
  - split; [done | intros _]. rewrite (getPriority_rank s Hs). cbn [ToNumber].
    apply priority_rank_known in Hs.
    destruct (gt_sub_rank (-99) (priority_rank s)) as [_ ->];
      [set_solver | apply priority_rank_cases | done].
  - split; [| done]. intros H.
    destruct (getPriority_other s Hs) as [_ [Hr | Hr]]; rewrite Hr in H;
      by vm_compute in H.
Qed.

Lemma shown_spec b :
  shown b = true <->
  blockchain b ∈ SwapForm.Object_keys BLOCKCHAIN_PRIORITIES
  ∧ gt (amount b) zero = true.
Proof. unfold shown. by rewrite andb_true_iff, shown_priority. Qed.

Lemma shown_known balances :
  Forall (fun b => blockchain b ∈ SwapForm.Object_keys BLOCKCHAIN_PRIORITIES)
    (List.filter shown balances).
Proof.
  apply Forall_forall. intros b Hb.
  apply list_elem_of_In, filter_In in Hb as [_ Hs].
  by apply shown_spec in Hs as [? _].
Qed.

Lemma rows_balances balances :
  balance <$> sortedAndFormattedBalances balances
  = Array_sort by_priority (List.filter shown balances).
Proof.
  unfold sortedAndFormattedBalances. rewrite <- list_fmap_compose.
  apply list_fmap_id.
Qed.

Lemma toFixed0_digits (x : number) :
  gt x zero = true -> Spec.fixed_range x = true ->
  Spec.all_digits (toFixed x 0) = true.
Proof.
  destruct x as [s | s | | s m e]; try done.
  destruct s; [done |]. intros _ Hr. unfold Spec.fixed_range in Hr.
  unfold toFixed. destruct (exact_ratio m e) as [p q].
  destruct (10 ^ 21 * q <=? p)%Z; [done |].
  rewrite string_app_nil. apply all_digits_decimal_digits.
Qed.

(** X13. The rows are the balances that pass the filter, each formatted by
    [formatBalance], every one as often as it occurs in the input; sorting
    only reorders them. *)
Theorem wallet_rows_permutation balances :
  sortedAndFormattedBalances balances
    ≡ₚ formatBalance <$> List.filter shown balances.
Proof.
  unfold sortedAndFormattedBalances. f_equiv. apply Array_sort_perm.
Qed.

(** X14. A balance is on the page exactly when it is in the input, its
    blockchain is one of the five keys of the priority table, and its amount
    is above zero. *)
Theorem wallet_row_shown_iff balances b :
  b ∈ balance <$> sortedAndFormattedBalances balances <->
  b ∈ balances
  ∧ blockchain b ∈ SwapForm.Object_keys BLOCKCHAIN_PRIORITIES
  ∧ gt (amount b) zero = true.
Proof.
  rewrite rows_balances, Array_sort_perm, <- shown_spec.
  rewrite list_elem_of_In, filter_In, <- list_elem_of_In. done.
Qed.

Lemma wallet_row_shown_iff_witness :
  {| currency := "ETH"; amount := Spec.num 3; blockchain := "Ethereum" |}
    ∈ balance <$>
        sortedAndFormattedBalances
          [ {| currency := "DOGE"; amount := Spec.num 5; blockchain := "Doge" |};
            {| currency := "ETH"; amount := Spec.num 3;
               blockchain := "Ethereum" |} ].
Proof.
  apply wallet_row_shown_iff. split_and!.
  - apply elem_of_cons. right. apply elem_of_cons. by left.
  - simpl. do 1 apply list_elem_of_further. apply list_elem_of_here.
  - by vm_compute.
Defined.

(** X15. The rows are in descending order of priority: of any two rows, the
    later one does not have the higher priority. *)
Theorem wallet_rows_sorted balances :
  StronglySorted
    (fun row later =>
       gt (getPriority (blockchain (balance later)))
          (getPriority (blockchain (balance row))) = false)
    (sortedAndFormattedBalances balances).
Proof.
  unfold sortedAndFormattedBalances.
  pose proof (Array_sort_sorted by_priority
                (fun b => priority_rank (blockchain b)) _ by_priority_gt
                (List.filter shown balances) (shown_known balances)) as Hs.
  pose proof (Array_sort_Forall by_priority _ _ (shown_known balances)) as Hk.
  induction Hs as [|b l Hl IH Hb]; simpl; constructor.
  - apply IH. by apply Forall_cons in Hk as [_ ?].
  - apply Forall_cons in Hk as [Hkb Hkl].
    apply Forall_fmap, Forall_forall. intros c Hc. simpl.
    rewrite Forall_forall in Hb, Hkl.
    rewrite getPriority_gt by auto. apply Z.ltb_ge. by apply Hb.
Qed.

(** X16. The sort is stable: rows of one priority (Zilliqa and Neo share 20)
    stand in the order their balances have in the input. *)
Theorem wallet_rows_stable balances (name : string) :
  filter (fun b => getPriority (blockchain b) = getPriority name)
    (balance <$> sortedAndFormattedBalances balances)
  = filter (fun b => getPriority (blockchain b) = getPriority name)
      (List.filter shown balances).
Proof.
  rewrite rows_balances.
  pose proof (Array_sort_filter_rank by_priority
                (fun b => priority_rank (blockchain b)) _ by_priority_gt
                (priority_rank name) (List.filter shown balances)
                (shown_known balances)) as H.
  pose proof (shown_known balances) as Hk.
  pose proof (Array_sort_Forall by_priority _ _ Hk) as Hk'.
  rewrite Forall_forall in Hk, Hk'.
  rewrite (filter_ext_elem
             (fun b => getPriority (blockchain b) = getPriority name)
             (fun b => priority_rank (blockchain b) = priority_rank name)
             (Array_sort by_priority (List.filter shown balances)))
    by (intros b Hb; apply getPriority_eq_rank; auto).
  rewrite (filter_ext_elem
             (fun b => getPriority (blockchain b) = getPriority name)
             (fun b => priority_rank (blockchain b) = priority_rank name)
             (List.filter shown balances))
    by (intros b Hb; apply getPriority_eq_rank; auto).
  exact H.
Qed.

(** X17. Every row carries [amount.toFixed()] of its balance; for an amount
    below [10^21] that text consists of decimal digits only (no sign, no
    point, no exponent). *)
Theorem wallet_rows_formatted balances :
  Forall
    (fun row =>
       formatted row = toFixed (amount (balance row)) 0
       ∧ (Spec.fixed_range (amount (balance row)) = true ->
          Spec.all_digits (formatted row) = true))
    (sortedAndFormattedBalances balances).
Proof.
  unfold sortedAndFormattedBalances. apply Forall_fmap, Forall_forall.
  intros b Hb. simpl. split; [done |].
  rewrite Array_sort_perm in Hb.
  apply list_elem_of_In, filter_In in Hb as [_ Hs].
  apply shown_spec in Hs as [_ Hpos]. by apply toFixed0_digits.
Qed.

Lemma wallet_rows_formatted_witness :
  Spec.fixed_range (Spec.num 3) = true
  ∧ Spec.all_digits
      (formatted
         (formatBalance
            {| currency := "ETH"; amount := Spec.num 3;
               blockchain := "Ethereum" |}))
    = true.
Proof.
  assert (Spec.fixed_range (Spec.num 3) = true) as Hr by (by vm_compute).
  split; [exact Hr |].
  pose proof (wallet_rows_formatted
                [ {| currency := "ETH"; amount := Spec.num 3;
                     blockchain := "Ethereum" |} ]) as H.
  assert (sortedAndFormattedBalances
            [ {| currency := "ETH"; amount := Spec.num 3;
                 blockchain := "Ethereum" |} ]
          = [ formatBalance
                {| currency := "ETH"; amount := Spec.num 3;
                   blockchain := "Ethereum" |} ]) as E by (by vm_compute).
  rewrite E, Forall_singleton in H. destruct H as [_ H]. exact (H Hr).
Defined.

End WalletRows.

(** ** Exact arithmetic on integers below 2^53, and the three sums *)
Section FloatExact.
Import JS Problem1.
Local Open Scope Z_scope.

Lemma digits2_pos_size (p : positive) : digits2_pos p = Pos.size p.
Proof. induction p as [p IH | p IH |]; simpl; by rewrite ?IH. Qed.

Lemma Zdigits2_log2 (p : positive) : Zdigits2 (Zpos p) = Z.log2 (Zpos p) + 1.
Proof.
  simpl. rewrite digits2_pos_size.
  destruct p as [p | p |]; simpl; try done; lia.
Qed.

Lemma iter_pos_nat {A} (f : A -> A) (p : positive) (x : A) :
  SpecFloat.iter_pos f p x = Nat.iter (Pos.to_nat p) f x.
Proof.
  revert x. induction p as [p IH | p IH |]; intros x;
    cbn [SpecFloat.iter_pos].
  - rewrite !IH, Pos2Nat.inj_xI.
    replace (S (2 * Pos.to_nat p))%nat with (Pos.to_nat p + (Pos.to_nat p + 1))%nat by lia.
    rewrite !Nat.iter_add. simpl. done.
  - rewrite !IH, Pos2Nat.inj_xO.
    replace (2 * Pos.to_nat p)%nat with (Pos.to_nat p + Pos.to_nat p)%nat by lia.
    by rewrite Nat.iter_add.
  - done.
Qed.

Lemma shr_1_even (q : Z) :
  0 < q ->
  shr_1 {| shr_m := 2 * q; shr_r := false; shr_s := false |}
  = {| shr_m := q; shr_r := false; shr_s := false |}.
Proof. destruct q; done. Qed.

Lemma shr_iter_exact (k : nat) (m : Z) :
  0 < m ->
  Nat.iter k shr_1 {| shr_m := m * 2 ^ Z.of_nat k; shr_r := false; shr_s := false |}
  = {| shr_m := m; shr_r := false; shr_s := false |}.
Proof.
  intros Hm. induction k as [|k IH].
  - simpl. by rewrite Z.mul_1_r.
  - rewrite Nat.iter_succ_r.
    replace (m * 2 ^ Z.of_nat (S k)) with (2 * (m * 2 ^ Z.of_nat k)).
    + rewrite shr_1_even; [done |]. apply Z.mul_pos_pos; [done |].
      apply Z.pow_pos_nonneg; lia.
    + rewrite Nat2Z.inj_succ, Z.pow_succ_r by lia. lia.
Qed.

Lemma shr_exact (m e n : Z) :
  0 < m -> 0 <= n ->
  shr {| shr_m := m * 2 ^ n; shr_r := false; shr_s := false |} e n
  = ({| shr_m := m; shr_r := false; shr_s := false |}, e + n).
Proof.
  intros Hm Hn. unfold shr. destruct n as [|p|p]; [| | lia].
  - by rewrite Z.mul_1_r, Z.add_0_r.
  - rewrite iter_pos_nat. f_equal.
    rewrite <- (positive_nat_Z p). apply shr_iter_exact, Hm.
Qed.

(** The canonical mantissa and exponent of an integer below 2^53. *)
Lemma round_exact (s : bool) (M : positive) (E z : Z) :
  0 < z < 2 ^ 53 -> E <= Z.log2 z - 52 -> Zpos M = z * 2 ^ (- E) ->
  binary_round_aux prec emax s (Zpos M) E loc_Exact
  = S754_finite s (Z.to_pos (z * 2 ^ (52 - Z.log2 z))) (Z.log2 z - 52).
Proof.
  intros [Hz0 Hz] HE HM.
  assert (0 <= Z.log2 z < 53) as Hl.
  { split; [apply Z.log2_nonneg |]. apply Z.log2_lt_pow2; lia. }
  set (E0 := Z.log2 z - 52). set (M0 := z * 2 ^ (52 - Z.log2 z)).
  assert (0 < M0) as HM0 by (apply Z.mul_pos_pos; [lia | apply Z.pow_pos_nonneg; lia]).
  assert (Z.log2 M0 = 52) as HlogM0.
  { unfold M0. rewrite Z.log2_mul_pow2 by lia. lia. }
  assert (Zpos M = M0 * 2 ^ (E0 - E)) as HM'.
  { rewrite HM. unfold M0, E0. rewrite <- Z.mul_assoc, <- Z.pow_add_r by lia.
    f_equal. f_equal. lia. }
  assert (Z.log2 (Zpos M) = 52 + (E0 - E)) as HlogM.
  { rewrite HM', Z.log2_mul_pow2 by lia. lia. }
  unfold binary_round_aux, shr_fexp.
  rewrite Zdigits2_log2, HlogM. unfold fexp, emin, prec, emax.
  replace (Z.max (52 + (E0 - E) + 1 + E - 53) (3 - 1024 - 53) - E)
    with (E0 - E) by (unfold E0 in *; lia).
  simpl shr_record_of_loc. rewrite HM', shr_exact by lia.
  simpl shr_m. simpl loc_of_shr_record. simpl round_nearest_even.
  destruct M0 as [|M0p|] eqn:HM0p; try lia.
  rewrite Zdigits2_log2, HlogM0.
  replace (Z.max (52 + 1 + (E + (E0 - E)) - 53) (3 - 1024 - 53) - (E + (E0 - E)))
    with 0 by (unfold E0 in *; lia).
  simpl. replace (E + (E0 - E)) with E0 by lia.
  destruct (Z.leb_spec E0 (1024 - 53)) as [_ | Hbad];
    [done | unfold E0 in Hbad; lia].
Qed.

Lemma iter_xO_Z (m d : positive) :
  Zpos (Pos.iter xO m d) = Zpos m * 2 ^ Zpos d.
Proof.
  change (Pos.iter xO m d) with (shift_pos d m).
  rewrite shift_pos_correct, Zpower_pos_nat, Zpower_nat_Z, positive_nat_Z. lia.
Qed.

Lemma shl_align_fst (m : positive) (e e' : Z) :
  e' <= e -> Zpos (fst (shl_align m e e')) = Zpos m * 2 ^ (e - e')
             ∧ snd (shl_align m e e') = e'.
Proof.
  intros He. unfold shl_align.
  destruct (e' - e) as [|d|d] eqn:Hd; simpl.
  - assert (e = e') as -> by lia. rewrite Z.sub_diag. simpl. lia.
  - lia.
  - rewrite iter_xO_Z. replace (e - e') with (Zpos d) by lia. done.
Qed.

Lemma binary_round_exact (s : bool) (m : positive) (e z : Z) :
  0 < z < 2 ^ 53 -> e <= 0 -> Zpos m = z * 2 ^ (- e) ->
  binary_round prec emax s m e
  = S754_finite s (Z.to_pos (z * 2 ^ (52 - Z.log2 z))) (Z.log2 z - 52).
Proof.
  intros Hz He Hm.
  assert (0 <= Z.log2 z < 53) as Hl.
  { split; [apply Z.log2_nonneg |]. apply Z.log2_lt_pow2; lia. }
  assert (fexp prec emax (Zdigits2 (Zpos m) + e) = Z.log2 z - 52) as Hfexp.
  { rewrite Zdigits2_log2, Hm, Z.log2_mul_pow2 by lia.
    unfold fexp, emin, prec, emax. lia. }
  unfold binary_round.
  change (Zpos (digits2_pos m)) with (Zdigits2 (Zpos m)). rewrite Hfexp.
  destruct (Z.le_gt_cases (Z.log2 z - 52) e) as [Hle | Hgt].
  - destruct (shl_align_fst m e (Z.log2 z - 52) Hle) as [Hf Hs].
    destruct (shl_align m e (Z.log2 z - 52)) as [mz ez]. simpl in Hf, Hs.
    subst ez. apply round_exact; [done | lia |].
    rewrite Hf, Hm, <- Z.mul_assoc, <- Z.pow_add_r by lia. do 2 f_equal. lia.
  - unfold shl_align.
    destruct (Z.log2 z - 52 - e) as [|d|d] eqn:Hd; try lia.
    apply round_exact; [done | lia | done].
Qed.

Lemma num_pos (z : Z) :
  0 < z < 2 ^ 53 ->
  Spec.num z = S754_finite false (Z.to_pos (z * 2 ^ (52 - Z.log2 z)))
                 (Z.log2 z - 52).
Proof.
  intros Hz. unfold Spec.num. destruct z as [|p|p]; try lia.
  simpl binary_normalize. apply binary_round_exact; [done | lia |].
  simpl. lia.
Qed.

(** The mantissa of the canonical form, as an integer equation. *)
Lemma canon_mantissa (z : Z) :
  0 < z < 2 ^ 53 ->
  Zpos (Z.to_pos (z * 2 ^ (52 - Z.log2 z))) = z * 2 ^ (- (Z.log2 z - 52))
  ∧ Z.log2 z - 52 <= 0.
Proof.
  intros Hz.
  assert (0 <= Z.log2 z < 53) as Hl.
  { split; [apply Z.log2_nonneg |]. apply Z.log2_lt_pow2; lia. }
  split; [| lia]. rewrite Z2Pos.id.
  - do 2 f_equal. lia.
  - apply Z.mul_pos_pos; [lia |]. apply Z.pow_pos_nonneg; lia.
Qed.

Lemma add_num (a b : Z) :
  0 <= a -> 0 < b -> a + b < 2 ^ 53 ->
  SFadd prec emax (Spec.num a) (Spec.num b) = Spec.num (a + b).
Proof.
  intros Ha Hb Hab.
  destruct (Z.eq_dec a 0) as [-> | Hne].
  { rewrite Z.add_0_l, (num_pos b) by lia. done. }
  rewrite (num_pos a), (num_pos b), (num_pos (a + b)) by lia.
  destruct (canon_mantissa a) as [Hma Hea]; [lia |].
  destruct (canon_mantissa b) as [Hmb Heb]; [lia |].
  set (ea := Z.log2 a - 52) in *. set (eb := Z.log2 b - 52) in *.
  set (ma := Z.to_pos (a * 2 ^ (52 - Z.log2 a))) in *.
  set (mb := Z.to_pos (b * 2 ^ (52 - Z.log2 b))) in *.
  unfold SFadd. set (ez := Z.min ea eb).
  destruct (shl_align_fst ma ea ez) as [Hfa _]; [lia |].
  destruct (shl_align_fst mb eb ez) as [Hfb _]; [lia |].
  unfold cond_Zopp. rewrite Hfa, Hfb, Hma, Hmb.
  rewrite <- !Z.mul_assoc, <- !Z.pow_add_r by lia.
  replace (- ea + (ea - ez)) with (- ez) by lia.
  replace (- eb + (eb - ez)) with (- ez) by lia.
  rewrite <- Z.mul_add_distr_r.
  assert (0 < (a + b) * 2 ^ (- ez)) as Hpos
    by (apply Z.mul_pos_pos; [lia | apply Z.pow_pos_nonneg; lia]).
  destruct ((a + b) * 2 ^ (- ez)) as [|p|p] eqn:Hp; try lia.
  simpl binary_normalize. apply binary_round_exact; [lia | lia | done].
Qed.

Lemma mul_num (a b : Z) :
  0 < a -> 0 < b -> a * b < 2 ^ 53 ->
  SFmul prec emax (Spec.num a) (Spec.num b) = Spec.num (a * b).
Proof.
  intros Ha Hb Hab.
  assert (a < 2 ^ 53 ∧ b < 2 ^ 53) as [Ha' Hb'] by nia.
  rewrite (num_pos a), (num_pos b), (num_pos (a * b)) by lia.
  destruct (canon_mantissa a) as [Hma Hea]; [lia |].
  destruct (canon_mantissa b) as [Hmb Heb]; [lia |].
  unfold SFmul. simpl xorb.
  apply round_exact; [lia | |].
  - pose proof (Z.log2_mul_below a b Ha Hb). lia.
  - rewrite Pos2Z.inj_mul, Hma, Hmb.
    replace (- (Z.log2 a - 52 + (Z.log2 b - 52)))
      with (- (Z.log2 a - 52) + - (Z.log2 b - 52)) by lia.
    rewrite Z.pow_add_r by lia. lia.
Qed.

Lemma div_eucl_pair (a b : Z) : Z.div_eucl a b = (a / b, a mod b).
Proof. unfold Z.div, Z.modulo. by destruct (Z.div_eucl a b). Qed.

Lemma half_num (k : Z) :
  0 < k -> 2 * k < 2 ^ 53 ->
  SFdiv prec emax (Spec.num (2 * k)) (Spec.num 2) = Spec.num k.
Proof.
  intros Hk Hk2.
  assert (0 <= Z.log2 k < 52) as Hl.
  { split; [apply Z.log2_nonneg |]. apply Z.log2_lt_pow2; lia. }
  assert (Z.log2 (2 * k) = Z.log2 k + 1) as Hl2
    by (rewrite Z.log2_double by lia; lia).
  rewrite (num_pos (2 * k)), (num_pos k) by lia.
  change (Spec.num 2) with (S754_finite false 4503599627370496 (-51)).
  destruct (canon_mantissa (2 * k)) as [Hma Hea]; [lia |].
  rewrite Hl2 in *.
  set (ma := Z.to_pos (2 * k * 2 ^ (52 - (Z.log2 k + 1)))) in *.
  assert (Z.log2 (Zpos ma) = 52) as Hlogma.
  { rewrite Hma, Z.log2_mul_pow2, Hl2 by lia. lia. }
  unfold SFdiv, SFdiv_core_binary.
  rewrite !Zdigits2_log2, Hlogma.
  change (Z.log2 4503599627370496) with 52.
  unfold fexp, emin, prec, emax.
  replace (Z.min (Z.max (52 + 1 + (Z.log2 k + 1 - 52) - (52 + 1 + -51) - 53)
                    (3 - 1024 - 53))
             (Z.log2 k + 1 - 52 - -51))
    with (Z.log2 k - 53) by lia.
  replace (Z.log2 k + 1 - 52 - -51 - (Z.log2 k - 53)) with 53 by lia.
  rewrite Z.shiftl_mul_pow2 by lia.
  rewrite div_eucl_pair.
  replace (Zpos ma * 2 ^ 53) with (2 * Zpos ma * 4503599627370496) by lia.
  rewrite Z.div_mul, Z.mod_mul by lia.
  change (new_location 4503599627370496 0) with loc_Exact.
  simpl xorb. change (2 * Zpos ma) with (Zpos (ma~0)).
  apply round_exact; [lia | lia |].
  rewrite Pos2Z.inj_xO, Hma.
  replace (- (Z.log2 k - 53)) with (2 + - (Z.log2 k + 1 - 52)) by lia.
  rewrite Z.pow_add_r by lia. lia.
Qed.

Lemma leb_num (a b : Z) :
  0 < a < 2 ^ 53 -> 0 < b < 2 ^ 53 ->
  SFleb (Spec.num a) (Spec.num b) = (a <=? b).
Proof.
  intros Ha Hb. rewrite (num_pos a), (num_pos b) by done.
  destruct (canon_mantissa a) as [Hma Hea]; [done |].
  destruct (canon_mantissa b) as [Hmb Heb]; [done |].
  set (ma := Z.to_pos (a * 2 ^ (52 - Z.log2 a))) in *.
  set (mb := Z.to_pos (b * 2 ^ (52 - Z.log2 b))) in *.
  unfold SFleb, SFcompare.
  destruct (Z.compare_spec (Z.log2 a - 52) (Z.log2 b - 52)) as [He | He | He].
  - change (Pos.compare_cont Eq ma mb) with (Zpos ma ?= Zpos mb).
    rewrite Hma, Hmb. replace (Z.log2 b) with (Z.log2 a) by lia.
    assert (0 < 2 ^ (- (Z.log2 a - 52))) as Hc
      by (apply Z.pow_pos_nonneg; lia).
    destruct (Z.compare_spec (a * 2 ^ (- (Z.log2 a - 52)))
                (b * 2 ^ (- (Z.log2 a - 52)))),
      (Z.leb_spec a b); try done; nia.
  - assert (a < b) by (apply Z.log2_lt_cancel; lia).
    destruct (Z.leb_spec a b); [done | lia].
  - assert (b < a) by (apply Z.log2_lt_cancel; lia).
    destruct (Z.leb_spec a b); [lia | done].
Qed.

Lemma ToLength_num (z : Z) : 0 <= z < 2 ^ 53 -> ToLength (Spec.num z) = z.
Proof.
  intros Hz. destruct (Z.eq_dec z 0) as [-> | Hne]; [done |].
  rewrite num_pos by lia.
  destruct (canon_mantissa z) as [Hm He]; [lia |].
  unfold ToLength. rewrite Hm.
  destruct (Z.leb_spec 0 (Z.log2 z - 52)) as [H0 | Hneg].
  - replace (Z.log2 z - 52) with 0 by lia. simpl. lia.
  - rewrite Z.div_mul by (apply Z.pow_nonzero; lia). lia.
Qed.

Lemma small_of_triangle (n : Z) : 0 <= n -> n * (n + 1) < 2 ^ 54 -> n < 2 ^ 28.
Proof. intros Hn H. change (2 ^ 54) with 18014398509481984 in H.
  change (2 ^ 28) with 268435456. nia. Qed.

Lemma half_exact (s x : Z) : 2 * s = x -> s = x / 2.
Proof. intros <-. rewrite Z.mul_comm, Z.div_mul; lia. Qed.

Lemma sum_to_n_a_loop_correct (n : Z) :
  0 < n -> n * (n + 1) < 2 ^ 54 ->
  ∀ (fuel : nat) (i s : Z),
    1 <= i <= n + 1 -> 2 * s = (i - 1) * i ->
    (Z.to_nat (n + 1 - i) < fuel)%nat ->
    sum_to_n_a_loop fuel (Spec.num n) (Spec.num i) (Spec.num s)
    = Some (Spec.num (n * (n + 1) / 2)).
Proof.
  intros Hn Hbound. pose proof (small_of_triangle n (Z.lt_le_incl _ _ Hn) Hbound) as Hsmall.
  change (2 ^ 28) with 268435456 in Hsmall.
  change (2 ^ 54) with 18014398509481984 in Hbound.
  induction fuel as [|fuel IH]; intros i s Hi Hs Hfuel; [lia |].
  cbn [sum_to_n_a_loop]. unfold le.
  rewrite leb_num by (change (2 ^ 53) with 9007199254740992; lia).
  destruct (Z.leb_spec i n) as [Hle | Hgt].
  - unfold add.
    rewrite (add_num i 1), (add_num s i)
      by (change (2 ^ 53) with 9007199254740992; nia).
    apply IH; [lia | nia | lia].
  - assert (i = n + 1) as -> by lia. do 2 f_equal. apply half_exact. nia.
Qed.

Lemma add_num_eq (a b : Z) :
  0 <= a -> 0 < b -> a + b < 2 ^ 53 ->
  add (Spec.num a) (Spec.num b) = Spec.num (a + b).
Proof. apply add_num. Qed.

Lemma triangle_even (n : Z) : ∃ k, n * (n + 1) = 2 * k.
Proof.
  destruct (Z.Even_or_Odd n) as [[m ->] | [m ->]].
  - exists (m * (2 * m + 1)). lia.
  - exists ((2 * m + 1) * (m + 1)). lia.
Qed.

Lemma fold_add_seq (len : nat) :
  ∀ (a : nat) (s : Z),
    2 * s = Z.of_nat a * (Z.of_nat a + 1) ->
    (Z.of_nat a + Z.of_nat len) * (Z.of_nat a + Z.of_nat len + 1) < 2 ^ 54 ->
    fold_left (fun sum num => add sum num)
      ((fun k => add (Spec.num (Z.of_nat k)) (Spec.num 1)) <$> seq a len)
      (Spec.num s)
    = Spec.num ((Z.of_nat a + Z.of_nat len)
                * (Z.of_nat a + Z.of_nat len + 1) / 2).
Proof.
  induction len as [|len IH]; intros a s Hs Hbound.
  - simpl. f_equal. apply half_exact. rewrite Hs. lia.
  - pose proof (small_of_triangle (Z.of_nat a + Z.of_nat (S len))
                  ltac:(lia) Hbound) as Hsmall.
    change (2 ^ 28) with 268435456 in Hsmall.
    change (2 ^ 54) with 18014398509481984 in Hbound.
    cbn [seq]. rewrite fmap_cons. cbn [fold_left].
    rewrite (add_num_eq (Z.of_nat a) 1)
      by (change (2 ^ 53) with 9007199254740992; lia).
    rewrite (add_num_eq s (Z.of_nat a + 1))
      by (change (2 ^ 53) with 9007199254740992; nia).
    rewrite (IH (S a) (s + (Z.of_nat a + 1)));
      [| lia | change (2 ^ 54) with 18014398509481984; nia].
    do 2 f_equal; lia.
Qed.


(** X18. For an integer [n >= 0] with [n(n+1)/2 < 2^53], the loop of
    [sum_to_n_a] ends after [n + 1] tests and returns [n(n+1)/2] exactly. *)
Theorem sum_to_n_a_correct (n : Z) (fuel : nat) :
  0 <= n -> n * (n + 1) < 2 ^ 54 -> (Z.to_nat n < fuel)%nat ->
  sum_to_n_a fuel (Spec.num n) = Some (Spec.num (n * (n + 1) / 2)).
Proof.
  intros Hn Hbound Hfuel. unfold sum_to_n_a.
  destruct (Z.eq_dec n 0) as [-> | Hne].
  - destruct fuel as [|fuel]; [lia | done].
  - apply sum_to_n_a_loop_correct; [lia | done | lia | lia |].
    replace (n + 1 - 1) with n by lia. done.
Qed.

Lemma sum_to_n_a_correct_witness :
  0 <= 5 ∧ 5 * (5 + 1) < 2 ^ 54 ∧ (Z.to_nat 5 < 6)%nat
  ∧ sum_to_n_a 6 (Spec.num 5) = Some (Spec.num (5 * (5 + 1) / 2)).
Proof.
  assert (0 <= 5) as H1 by lia.
  assert (5 * (5 + 1) < 2 ^ 54) as H2 by reflexivity.
  assert (Z.to_nat 5 < 6)%nat as H3 by (simpl; lia).
  split; [exact H1 |]. split; [exact H2 |]. split; [exact H3 |].
  exact (sum_to_n_a_correct 5 6 H1 H2 H3).
Defined.

(** X19. For an integer [n >= 0] with [n(n+1) < 2^53], the formula of
    [sum_to_n_b] is computed without rounding and gives [n(n+1)/2]. *)
Theorem sum_to_n_b_correct (n : Z) :
  0 <= n -> n * (n + 1) < 2 ^ 53 ->
  sum_to_n_b (Spec.num n) = Spec.num (n * (n + 1) / 2).
Proof.
  intros Hn Hbound. unfold sum_to_n_b.
  destruct (Z.eq_dec n 0) as [-> | Hne]; [done |].
  change (2 ^ 53) with 9007199254740992 in Hbound.
  rewrite (add_num_eq n 1) by (change (2 ^ 53) with 9007199254740992; nia).
  unfold mul. rewrite mul_num by (change (2 ^ 53) with 9007199254740992; lia).
  destruct (triangle_even n) as [k Hk]. rewrite Hk.
  unfold div. rewrite half_num by (change (2 ^ 53) with 9007199254740992; nia).
  f_equal. apply half_exact. done.
Qed.

Lemma sum_to_n_b_correct_witness :
  0 <= 5 ∧ 5 * (5 + 1) < 2 ^ 53
  ∧ sum_to_n_b (Spec.num 5) = Spec.num (5 * (5 + 1) / 2).
Proof.
  assert (0 <= 5) as H1 by lia.
  assert (5 * (5 + 1) < 2 ^ 53) as H2 by reflexivity.
  split; [exact H1 |]. split; [exact H2 |].
  exact (sum_to_n_b_correct 5 H1 H2).
Defined.

(** X20. For an integer [n >= 0] with [n(n+1)/2 < 2^53], [sum_to_n_c] builds
    the array [1 .. n] (no RangeError) and reduces it to [n(n+1)/2]
    exactly. *)
Theorem sum_to_n_c_correct (n : Z) :
  0 <= n -> n * (n + 1) < 2 ^ 54 ->
  sum_to_n_c (Spec.num n) = Some (Spec.num (n * (n + 1) / 2)).
Proof.
  intros Hn Hbound. pose proof (small_of_triangle n Hn Hbound) as Hsmall.
  change (2 ^ 28) with 268435456 in Hsmall.
  unfold sum_to_n_c, Array_from_length.
  rewrite ToLength_num by (change (2 ^ 53) with 9007199254740992; lia).
  destruct (Z.ltb_spec (2 ^ 32 - 1) n) as [Hbig | _];
    [change (2 ^ 32) with 4294967296 in Hbig; lia |].
  f_equal. rewrite (fold_add_seq (Z.to_nat n) 0 0); [| done |].
  - rewrite Z2Nat.id by lia. done.
  - rewrite Z2Nat.id by lia. done.
Qed.

Lemma sum_to_n_c_correct_witness :
  0 <= 5 ∧ 5 * (5 + 1) < 2 ^ 54
  ∧ sum_to_n_c (Spec.num 5) = Some (Spec.num (5 * (5 + 1) / 2)).
Proof.
  assert (0 <= 5) as H1 by lia.
  assert (5 * (5 + 1) < 2 ^ 54) as H2 by reflexivity.
  split; [exact H1 |]. split; [exact H2 |].
  exact (sum_to_n_c_correct 5 H1 H2).
Defined.

(** X21. For an argument that is not above zero (a zero, a negative number,
    -Infinity or NaN) the loop of [sum_to_n_a] does not run and the array of
    [sum_to_n_c] is empty: both return +0. *)
Theorem sum_to_n_not_positive (n : number) (fuel : nat) :
  gt n zero = false -> fuel ≠ O ->
  sum_to_n_a fuel n = Some zero ∧ sum_to_n_c n = Some zero.
Proof.
  intros Hn Hfuel. destruct fuel as [|fuel]; [done |].
  destruct n as [s | s | | s m e]; try done.
  - destruct s; done.
  - destruct s; done.
Qed.

Lemma sum_to_n_not_positive_witness :
  gt (Spec.num (-3)) zero = false ∧ 1%nat ≠ O
  ∧ sum_to_n_a 1 (Spec.num (-3)) = Some zero
  ∧ sum_to_n_c (Spec.num (-3)) = Some zero.
Proof.
  assert (gt (Spec.num (-3)) zero = false) as H1 by reflexivity.
  assert (1%nat ≠ O) as H2 by discriminate.
  split; [exact H1 |]. split; [exact H2 |].
  exact (sum_to_n_not_positive (Spec.num (-3)) 1 H1 H2).
Defined.

End FloatExact.
